(** * max-concurrent-promises: the part ledger and the bounded queue of [App.tsx]

    The development embeds [src/App.tsx]:
    - the reducer of the component ([Part], [State], [Action], [reducer]),
      with the JavaScript array operations it uses ([findIndex], [slice],
      indexing, object spread) written out, including what they do when
      [findIndex] answers [-1];
    - [handleInitialize] and the bookkeeping part of [run];
    - the scheduler [run] hands its tasks to ([Module Queue]). *)

From Stdlib Require Import List ZArith Bool Lia Permutation.
Import ListNotations.
Local Open Scope Z_scope.

(** ** Constants *)

Definition WORKER_POOL : nat := 5.
Definition TOTAL_PARTS : nat := 500.

(** ** Data model *)

(** [type Part = { id: number; success: null | boolean }].

    [success] is [None] for [null].  The declared type makes [id] a number,
    but the reducer can build an object by spreading [undefined] (see
    [UPLOAD_SUCCESS] below), and such an object has no [id] property: reading
    it gives [undefined].  So [id] is [None] for [undefined] and [Some n] for
    the number [n]; the identifiers the program creates are array indices,
    hence integers. *)
Record Part : Type := mkPart { id : option Z; success : option bool }.

(** [type State = { isUploading: boolean; items: Part[] }]. *)
Record State : Type := mkState { isUploading : bool; items : list Part }.

(** The payload of [UPLOAD_SUCCESS] and [UPLOAD_FAILED] is declared a number;
    [run] passes the [id] it destructures from a part, which is [undefined]
    for a part without [id].  It has the type of [id]. *)
Inductive Action : Type :=
| ADD_ITEMS (payload : list Part)
| START_UPLOAD
| UPLOAD_SUCCESS (payload : option Z)
| UPLOAD_FAILED (payload : option Z).

(** ** JavaScript operations used by the reducer *)

(** [a === b] on values that are a number or [undefined]. *)
Definition strict_eq (a b : option Z) : bool :=
  match a, b with
  | Some x, Some y => Z.eqb x y
  | None, None => true
  | _, _ => false
  end.

(** [a === b] on values that are [null] or a boolean. *)
Definition strict_eq_tri (a b : option bool) : bool :=
  match a, b with
  | Some x, Some y => Bool.eqb x y
  | None, None => true
  | _, _ => false
  end.

(** [Array.prototype.findIndex]: the index of the first element satisfying
    the predicate, [-1] when there is none. *)
Fixpoint findIndex_from {A : Type} (f : A -> bool) (l : list A) (k : Z) : Z :=
  match l with
  | [] => -1
  | x :: l' => if f x then k else findIndex_from f l' (k + 1)
  end.

Definition findIndex {A : Type} (f : A -> bool) (l : list A) : Z :=
  findIndex_from f l 0.

(** [arr[i]]: the element at index [i], [undefined] ([None]) when [i] is not
    an index of the array (in particular for [i = -1]). *)
Definition get {A : Type} (l : list A) (i : Z) : option A :=
  if i <? 0 then None else nth_error l (Z.to_nat i).

(** The relative index computation of [Array.prototype.slice]: a negative
    index counts from the end, and the result is clamped to [0 .. len]. *)
Definition rel_index (len : Z) (i : Z) : Z :=
  if i <? 0 then Z.max (len + i) 0 else Z.min i len.

(** [arr.slice(start, end)]; [end = None] is the call with one argument. *)
Definition slice {A : Type} (l : list A) (start : Z) (end_ : option Z) : list A :=
  let len := Z.of_nat (length l) in
  let k := rel_index len start in
  let final := match end_ with None => len | Some e => rel_index len e end in
  firstn (Z.to_nat (Z.max (final - k) 0)) (skipn (Z.to_nat k) l).

(** [{ ...x, success: v }] where [x] is a part or [undefined]: spreading
    [undefined] contributes no property, so the result has no [id]. *)
Definition spread_success (x : option Part) (v : option bool) : Part :=
  match x with
  | Some p => {| id := id p; success := v |}
  | None => {| id := None; success := v |}
  end.

(** [if (p.success)]: only [true] is truthy among [null], [false], [true]. *)
Definition truthy (v : option bool) : bool :=
  match v with Some true => true | _ => false end.

(** ** The reducer *)

(** [items.filter((p) => p.success === null).length > 0]. *)
Definition anyItemsPending (l : list Part) : bool :=
  (0 <? Z.of_nat (length (filter (fun p => strict_eq_tri (success p) None) l))).

(** The list built by the [UPLOAD_SUCCESS] and [UPLOAD_FAILED] cases, which
    differ only in the value [v] stored in [success]. *)
Definition setOutcome (l : list Part) (payload : option Z) (v : bool) : list Part :=
  let idx := findIndex (fun i => strict_eq (id i) payload) l in
  let nextItem := spread_success (get l idx) (Some v) in
  slice l 0 (Some idx) ++ [nextItem] ++ slice l (idx + 1) None.

Definition reducer (prevState : State) (action : Action) : State :=
  match action with
  | ADD_ITEMS payload =>
      {| isUploading := isUploading prevState; items := payload |}
  | START_UPLOAD =>
      let resetItems :=
        map (fun p => if truthy (success p) then p
                      else {| id := id p; success := None |})
            (items prevState) in
      {| isUploading := true; items := resetItems |}
  | UPLOAD_SUCCESS payload =>
      let items' := setOutcome (items prevState) payload true in
      {| isUploading := anyItemsPending items'; items := items' |}
  | UPLOAD_FAILED payload =>
      let items1 := setOutcome (items prevState) payload false in
      {| isUploading := anyItemsPending items1; items := items1 |}
  end.

Definition initialState : State := {| isUploading := false; items := [] |}.

(** ** The component's handlers *)

(** [Array(n).fill(undefined).map((_, i) => i)]. *)
Fixpoint mapi_from {A B : Type} (f : A -> Z -> B) (l : list A) (k : Z) : list B :=
  match l with
  | [] => []
  | x :: l' => f x k :: mapi_from f l' (k + 1)
  end.

Definition fakeParts (n : nat) : list Z :=
  mapi_from (fun (_ : unit) i => i) (repeat tt n) 0.

(** [handleInitialize] with the number of parts as a parameter; the source
    fixes it to [TOTAL_PARTS]. *)
Definition initialize (n : nat) (state : State) : State :=
  reducer state
    (ADD_ITEMS (map (fun i => {| id := Some i; success := None |}) (fakeParts n))).

Definition handleInitialize (state : State) : State :=
  initialize TOTAL_PARTS state.

(** [getSuccessParts], [getFailedParts] and the pending parts counted by
    [numPending]. *)
Definition getSuccessParts (parts : list Part) : list Part :=
  filter (fun p => strict_eq_tri (success p) (Some true)) parts.

Definition getFailedParts (parts : list Part) : list Part :=
  filter (fun p => strict_eq_tri (success p) (Some false)) parts.

Definition pending (parts : list Part) : list Part :=
  filter (fun p => strict_eq_tri (success p) None) parts.

(** [state.items.filter((part) => part.success !== true)] of [run]. *)
Definition toProcess (state : State) : list Part :=
  filter (fun part => negb (strict_eq_tri (success part) (Some true))) (items state).

(** The action a task of [run] dispatches once its request has settled. *)
Definition outcomeAction (c : option Z * bool) : Action :=
  if snd c then UPLOAD_SUCCESS (fst c) else UPLOAD_FAILED (fst c).

(** The state of the reducer after the outcome callbacks [cs] have been
    dispatched in that order ([useReducer] applies the dispatched actions
    one after the other). *)
Definition dispatchAll (state : State) (cs : list (option Z * bool)) : State :=
  fold_left reducer (map outcomeAction cs) state.

(** One pass of [run] as the ledger sees it: [START_UPLOAD], then the
    outcome callbacks of the tasks in their order of arrival. *)
Definition runPass (state : State) (cs : list (option Z * bool)) : State :=
  dispatchAll (reducer state START_UPLOAD) cs.

(** The tasks of a pass report only identifiers of [toProcess]: each task
    closes over the [id] of one of its parts. *)
Definition reportsSubmitted (state : State) (cs : list (option Z * bool)) : Prop :=
  Forall (fun c => In (fst c) (map id (toProcess state))) cs.

(** Any number of passes, one after the other. *)
Inductive passes : State -> State -> Prop :=
| passes_done : forall state, passes state state
| passes_more : forall state cs state',
    reportsSubmitted state cs ->
    passes (runPass state cs) state' ->
    passes state state'.

(** What a caller of the reducer observes: a JavaScript call completes
    normally with a value or abruptly with a thrown error.  The body of
    [reducer] has no [throw], and [findIndex], [slice], indexing an array and
    spreading [undefined] do not raise, so every call completes normally.
    [NotFoundError] is the error kind the spec names; the source defines no
    error of its own. *)
Inductive Error : Type := NotFoundError.

Inductive Completion : Type :=
| Normal (value : State)
| Throw (error : Error).

Definition reducerCall (prevState : State) (action : Action) : Completion :=
  Normal (reducer prevState action).

(** ** The queue *)

Module Queue.

(** Modelled from the spec: the scheduler, class [PQueue] of the package
    p-queue imported on line 2 of [App.tsx], is not among the sources; only
    its caller [run] is.  Section 4.2 of the spec describes it as a
    sliding-window pool: a task is started only while fewer than [limit]
    tasks are in flight, and as soon as a task in flight completes the next
    waiting task is started; per item the states are NotStarted, InFlight,
    Completed.  [run] creates the queue with [concurrency: WORKER_POOL] and
    [autoStart: false], adds one task per part of [toProcess], calls
    [start()] and awaits [onEmpty()].

    A run is described by the reducer state [store], the tasks [waiting] in
    the queue (not started), the tasks [inFlight] (started, their promise not
    yet resolved) and the outcome callbacks [reported] so far, oldest first.
    A task is identified by the [id] it closes over. *)
Record Run : Type := mkRun {
  store : State;
  waiting : list (option Z);
  inFlight : list (option Z);
  reported : list (option Z * bool)
}.

(** Modelled from the spec: the step of [PQueue] that starts the next
    waiting task, taken only while fewer than the limit are in flight
    (section 4.2: at every instant at most [limit] invocations are not yet
    completed). *)
Definition tryToStartAnother (r : Run) : Run :=
  match waiting r with
  | [] => r
  | x :: q =>
      if (length (inFlight r) <? WORKER_POOL)%nat
      then {| store := store r; waiting := q;
              inFlight := inFlight r ++ [x]; reported := reported r |}
      else r
  end.

(** Modelled from the spec: [queue.start()] of [PQueue], which starts
    waiting tasks until none is left or no slot is free.  Each round that starts a task shortens [waiting], and a round that
    starts none changes nothing, so [length (waiting r)] rounds are enough. *)
Definition start (r : Run) : Run :=
  Nat.iter (length (waiting r)) tryToStartAnother r.

(** Remove one task with identifier [x] from the tasks in flight. *)
Fixpoint remove1 (x : option Z) (l : list (option Z)) : list (option Z) :=
  match l with
  | [] => []
  | y :: l' => if strict_eq x y then l' else y :: remove1 x l'
  end.

(** Modelled from the spec: the slot discipline of [PQueue] when a task
    completes (section 4.2: as soon as an invocation in flight completes,
    the next not yet started item is started).  What the task does is in the
    source: when the request of the task [x] in flight settles, successfully
    or not, the task dispatches its outcome (lines 115-119), then resolves
    (line 122), which frees its slot. *)
Definition settle (r : Run) (x : option Z) (ok : bool) : Run :=
  tryToStartAnother
    {| store := reducer (store r) (outcomeAction (x, ok));
       waiting := waiting r;
       inFlight := remove1 x (inFlight r);
       reported := reported r ++ [(x, ok)] |}.

(** Lines 96-126 of [run]: [START_UPLOAD] is dispatched and one task per part
    of [toProcess] is added to the paused queue.  [run] reads [state.items]
    of the render it was created in, the state [START_UPLOAD] is applied
    to. *)
Definition enqueued (state : State) : Run :=
  {| store := reducer state START_UPLOAD;
     waiting := map id (toProcess state);
     inFlight := [];
     reported := [] |}.

(** Line 129. *)
Definition started (state : State) : Run := start (enqueued state).

(** The states a run goes through, for every order in which the requests in
    flight settle and every outcome. *)
Inductive reachable (state : State) : Run -> Prop :=
| reach_enqueued : reachable state (enqueued state)
| reach_started : reachable state (started state)
| reach_settle : forall r x ok,
    reachable state r -> In x (inFlight r) ->
    reachable state (settle r x ok).

(** The run that settles the requests in the order [cs]; [None] when a
    request settles whose task is not in flight. *)
Fixpoint replay (r : Run) (cs : list (option Z * bool)) : option Run :=
  match cs with
  | [] => Some r
  | (x, ok) :: cs' =>
      if existsb (strict_eq x) (inFlight r) then replay (settle r x ok) cs'
      else None
  end.

(** The signal [run] awaits on line 130.  The spec does not describe
    [onEmpty()]; the package documents it as the promise that settles when
    the queue becomes empty, that is when no task is waiting to be started
    ([queue.size === 0]), and documents a second signal, [onIdle()], as the
    one that also requires every started task to have completed.  [run] calls
    [onEmpty()] right after [start()], so what decides it there is whether
    the queue is empty at that point. *)
Definition onEmpty (r : Run) : bool :=
  match waiting r with [] => true | _ :: _ => false end.

Definition onIdle (r : Run) : bool :=
  onEmpty r && match inFlight r with [] => true | _ :: _ => false end.

(** The tasks of a run, whatever their stage: reported, in flight or
    waiting. *)
Definition tasks (r : Run) : list (option Z) :=
  map fst (reported r) ++ inFlight r ++ waiting r.

End Queue.

(** ** What the component derives from the state *)

(** Lines 146-148: [numFailed], [numPending] and [numDone]. *)
Definition numFailed (state : State) : nat :=
  length (getFailedParts (items state)).

Definition numPending (state : State) : nat :=
  length (filter (fun p => strict_eq_tri (success p) None) (items state)).

Definition numDone (state : State) : nat :=
  length (filter (fun p => negb (strict_eq_tri (success p) None)) (items state)).

(** [!n] for a number [n] that is a length: true exactly for [0]. *)
Definition notNumber (n : nat) : bool := Nat.eqb n 0.

(** Line 178, the [disabled] attribute of the Initialize button. *)
Definition initializeDisabled (state : State) : bool := isUploading state.

(** Line 194, the [disabled] attribute of the Run button:
    [state.isUploading || (!numPending && !numFailed)]. *)
Definition runDisabled (state : State) : bool :=
  isUploading state
  || (notNumber (numPending state) && notNumber (numFailed state)).

(** ** Reading a run part by part *)

(** What one outcome does to a part when identifiers are unique: the part
    carrying the reported identifier takes the outcome, any other part is
    left alone.  This is a specification device, not a function of the
    source; [dispatchAll_per_part] relates it to the reducer. *)
Definition record1 (q : Part) (c : option Z * bool) : Part :=
  if strict_eq (id q) (fst c) then {| id := id q; success := Some (snd c) |}
  else q.

Definition recorded (cs : list (option Z * bool)) (q : Part) : Part :=
  fold_left record1 cs q.

(** * Properties *)

(** ** The JavaScript operations *)

Lemma strict_eq_true (a b : option Z) : strict_eq a b = true <-> a = b.
Proof.
  destruct a as [x|], b as [y|]; simpl; split; intro H;
    try discriminate; try reflexivity.
  - apply Z.eqb_eq in H. now subst.
  - injection H as ->. apply Z.eqb_refl.
Qed.

Lemma id_eq_dec (a b : option Z) : {a = b} + {a <> b}.
Proof. decide equality. apply Z.eq_dec. Qed.

Lemma strict_eq_false (a b : option Z) : strict_eq a b = false <-> a <> b.
Proof.
  rewrite <- strict_eq_true. destruct (strict_eq a b); split; congruence.
Qed.

Lemma findIndex_from_none {A : Type} (f : A -> bool) (l : list A) :
  forall k, (forall x, In x l -> f x = false) -> findIndex_from f l k = -1.
Proof.
  induction l as [|x l IH]; intros k H; simpl.
  - reflexivity.
  - rewrite (H x (or_introl eq_refl)). apply IH.
    intros y Hy. apply H. now right.
Qed.

Lemma findIndex_from_first {A : Type} (f : A -> bool) (l1 : list A) :
  forall p l2 k,
    (forall x, In x l1 -> f x = false) -> f p = true ->
    findIndex_from f (l1 ++ p :: l2) k = k + Z.of_nat (length l1).
Proof.
  induction l1 as [|x l1 IH]; intros p l2 k H Hp; simpl.
  - rewrite Hp. lia.
  - rewrite (H x (or_introl eq_refl)).
    rewrite IH; [lia | | assumption].
    intros y Hy. apply H. now right.
Qed.

(** A list either has no element satisfying [f] or splits at the first
    one. *)
Lemma first_split {A : Type} (f : A -> bool) (l : list A) :
  (forall x, In x l -> f x = false) \/
  (exists l1 p l2, l = l1 ++ p :: l2 /\
                   (forall x, In x l1 -> f x = false) /\ f p = true).
Proof.
  induction l as [|x l IH].
  - left. intros x [].
  - destruct (f x) eqn:Hx.
    + right. exists [], x, l. repeat split; [intros y []| assumption].
    + destruct IH as [IH | (l1 & p & l2 & -> & H1 & Hp)].
      * left. intros y [<- | Hy]; [assumption | now apply IH].
      * right. exists (x :: l1), p, l2. repeat split; [| assumption].
        intros y [<- | Hy]; [assumption | now apply H1].
Qed.

Lemma get_middle {A : Type} (l1 : list A) (p : A) (l2 : list A) :
  get (l1 ++ p :: l2) (Z.of_nat (length l1)) = Some p.
Proof.
  unfold get. destruct (Z.ltb_spec (Z.of_nat (length l1)) 0); [lia |].
  rewrite Nat2Z.id, nth_error_app2 by apply Nat.le_refl.
  now rewrite Nat.sub_diag.
Qed.

Lemma rel_index_inside (len i : Z) : 0 <= i <= len -> rel_index len i = i.
Proof.
  intros H. unfold rel_index. destruct (Z.ltb_spec i 0); lia.
Qed.

Lemma rel_index_minus_one (len : Z) :
  0 <= len -> rel_index len (-1) = Z.of_nat (Z.to_nat len - 1).
Proof.
  intros H. unfold rel_index. destruct (Z.ltb_spec (-1) 0); lia.
Qed.

(** [slice] between two indices of the array, in nat terms. *)
Lemma slice_inside {A : Type} (l : list A) (a b : nat) :
  (a <= b <= length l)%nat ->
  slice l (Z.of_nat a) (Some (Z.of_nat b)) = firstn (b - a) (skipn a l).
Proof.
  intros H. unfold slice. rewrite !rel_index_inside by lia.
  f_equal; [lia | f_equal; lia].
Qed.

Lemma slice_to_end {A : Type} (l : list A) (a : nat) :
  (a <= length l)%nat -> slice l (Z.of_nat a) None = skipn a l.
Proof.
  intros H. unfold slice. rewrite rel_index_inside by lia.
  rewrite Nat2Z.id.
  replace (Z.to_nat _) with (length (skipn a l)) by (rewrite length_skipn; lia).
  apply firstn_all.
Qed.

Lemma slice_prefix {A : Type} (l1 : list A) (p : A) (l2 : list A) :
  slice (l1 ++ p :: l2) 0 (Some (Z.of_nat (length l1))) = l1.
Proof.
  change 0 with (Z.of_nat 0). rewrite slice_inside.
  - simpl skipn. rewrite Nat.sub_0_r, firstn_app, Nat.sub_diag, firstn_all.
    simpl. apply app_nil_r.
  - rewrite length_app. lia.
Qed.

Lemma slice_suffix {A : Type} (l1 : list A) (p : A) (l2 : list A) :
  slice (l1 ++ p :: l2) (Z.of_nat (length l1) + 1) None = l2.
Proof.
  replace (Z.of_nat (length l1) + 1) with (Z.of_nat (length (l1 ++ [p])))
    by (rewrite length_app; simpl; lia).
  replace (l1 ++ p :: l2) with ((l1 ++ [p]) ++ l2)
    by (rewrite <- app_assoc; reflexivity).
  rewrite slice_to_end by (rewrite !length_app; lia).
  rewrite skipn_app, skipn_all, Nat.sub_diag. reflexivity.
Qed.

Lemma slice_all {A : Type} (l : list A) : slice l 0 None = l.
Proof.
  change 0 with (Z.of_nat 0). rewrite slice_to_end by lia. reflexivity.
Qed.

Lemma slice_but_last {A : Type} (l : list A) :
  slice l 0 (Some (-1)) = removelast l.
Proof.
  unfold slice. rewrite rel_index_minus_one, rel_index_inside by lia.
  rewrite Nat2Z.id. simpl skipn.
  replace (Z.to_nat _) with (Nat.pred (length l)) by lia.
  symmetry. apply removelast_firstn_len.
Qed.

(** ** The two shapes of [setOutcome] *)

(** The identifier is found: the first part carrying it gets the outcome,
    nothing else moves. *)
Lemma setOutcome_found (l1 : list Part) (p : Part) (l2 : list Part)
      (payload : option Z) (v : bool) :
  (forall x, In x l1 -> id x <> payload) -> id p = payload ->
  setOutcome (l1 ++ p :: l2) payload v
  = l1 ++ {| id := id p; success := Some v |} :: l2.
Proof.
  intros H1 Hp. unfold setOutcome, findIndex.
  rewrite findIndex_from_first.
  - simpl (0 + _). rewrite get_middle, slice_prefix, slice_suffix. reflexivity.
  - intros x Hx. apply strict_eq_false. now apply H1.
  - now apply strict_eq_true.
Qed.

(** The identifier is not found: [findIndex] answers [-1], and the slices
    taken at [-1] and [0] are the list without its last element and the
    whole list. *)
Lemma setOutcome_missing (l : list Part) (payload : option Z) (v : bool) :
  ~ In payload (map id l) ->
  setOutcome l payload v
  = removelast l ++ [{| id := None; success := Some v |}] ++ l.
Proof.
  intros H. unfold setOutcome, findIndex.
  rewrite findIndex_from_none.
  - simpl (-1 + 1). rewrite slice_but_last, slice_all. reflexivity.
  - intros x Hx. apply strict_eq_false. intros E. apply H.
    rewrite <- E. now apply in_map.
Qed.

(** Splitting a list at the first part with a given identifier. *)
Lemma split_at_id (l : list Part) (payload : option Z) :
  In payload (map id l) ->
  exists l1 p l2, l = l1 ++ p :: l2 /\
                  (forall x, In x l1 -> id x <> payload) /\ id p = payload.
Proof.
  intros H.
  destruct (first_split (fun i => strict_eq (id i) payload) l)
    as [Hno | (l1 & p & l2 & E & H1 & Hp)].
  - exfalso. apply in_map_iff in H. destruct H as (x & Hx & Hin).
    specialize (Hno x Hin). apply strict_eq_false in Hno. contradiction.
  - exists l1, p, l2. repeat split; [assumption | | now apply strict_eq_true].
    intros x Hx. apply strict_eq_false. now apply H1.
Qed.

(** ** The three outcome states *)

(** Every part is pending, failed or succeeded, and only one of them: the
    three filters of the component partition the item list. *)
Lemma outcome_counts (parts : list Part) :
  (length (pending parts) + length (getFailedParts parts)
   + length (getSuccessParts parts))%nat
  = length parts.
Proof.
  unfold pending, getFailedParts, getSuccessParts.
  induction parts as [|p parts IH]; [reflexivity |].
  destruct p as [i [[|]|]]; simpl; lia.
Qed.

(** ** Initialisation *)

Lemma mapi_from_index (n : nat) :
  forall a : nat,
    mapi_from (fun (_ : unit) i => i) (repeat tt n) (Z.of_nat a)
    = map Z.of_nat (seq a n).
Proof.
  induction n as [|n IH]; intros a; simpl.
  - reflexivity.
  - f_equal. replace (Z.of_nat a + 1) with (Z.of_nat (S a)) by lia. apply IH.
Qed.

Lemma fakeParts_seq (n : nat) : fakeParts n = map Z.of_nat (seq 0 n).
Proof. exact (mapi_from_index n 0). Qed.

(** C6. For every [n], [handleInitialize] run with [n] parts (the source
    runs it with [TOTAL_PARTS]) leaves a ledger of exactly [n] parts, all
    unresolved, whose identifiers are [0 .. n-1] in that order, whatever the
    parts of the state before; the [isUploading] flag is not touched. *)
Theorem initialize_fresh_parts (n : nat) (state : State) :
  items (initialize n state)
  = map (fun i => {| id := Some (Z.of_nat i); success := None |}) (seq 0 n)
  /\ length (items (initialize n state)) = n
  /\ map id (items (initialize n state))
     = map (fun i => Some (Z.of_nat i)) (seq 0 n)
  /\ (forall p, In p (items (initialize n state)) -> success p = None)
  /\ isUploading (initialize n state) = isUploading state
  /\ handleInitialize state = initialize 500 state.
Proof.
  assert (E : items (initialize n state)
              = map (fun i => {| id := Some (Z.of_nat i); success := None |})
                    (seq 0 n)).
  { unfold initialize. simpl. rewrite fakeParts_seq, map_map. reflexivity. }
  repeat split.
  - exact E.
  - rewrite E, length_map. apply length_seq.
  - rewrite E, map_map. reflexivity.
  - intros p Hp. rewrite E in Hp. apply in_map_iff in Hp.
    destruct Hp as (i & <- & _). reflexivity.
Qed.

(** ** Recording an outcome *)

Lemma anyItemsPending_pending (l : list Part) :
  anyItemsPending l = negb (Nat.eqb (length (pending l)) 0).
Proof.
  unfold anyItemsPending, pending.
  destruct (filter _ l); reflexivity.
Qed.

Lemma anyItemsPending_exists (l : list Part) :
  anyItemsPending l = true <-> exists p, In p l /\ success p = None.
Proof.
  rewrite anyItemsPending_pending. unfold pending. split.
  - destruct (filter _ l) as [|p l'] eqn:E; [discriminate |]. intros _.
    assert (H : In p (filter (fun p => strict_eq_tri (success p) None) l))
      by (rewrite E; now left).
    apply filter_In in H. destruct H as [Hin Hs].
    exists p. split; [assumption |].
    destruct (success p); [discriminate | reflexivity].
  - intros (p & Hin & Hs).
    assert (H : In p (filter (fun p => strict_eq_tri (success p) None) l)).
    { apply filter_In. split; [assumption |]. now rewrite Hs. }
    destruct (filter _ l); [destruct H | reflexivity].
Qed.

(** C8. After [UPLOAD_SUCCESS] and after [UPLOAD_FAILED], for every state and
    every payload, the stored [isUploading] is [pending().length > 0]
    computed on the new item list: it is true exactly when some part of the
    new list is unresolved. *)
Theorem isUploading_recomputed (state : State) (payload : option Z) (ok : bool) :
  let state' := reducer state (outcomeAction (payload, ok)) in
  isUploading state' = negb (Nat.eqb (length (pending (items state'))) 0)
  /\ (isUploading state' = true
      <-> exists p, In p (items state') /\ success p = None).
Proof.
  destruct ok; simpl; split;
    solve [apply anyItemsPending_pending | apply anyItemsPending_exists].
Qed.

Lemma length_setOutcome_missing (l : list Part) (payload : option Z) (v : bool) :
  ~ In payload (map id l) ->
  length (setOutcome l payload v)
  = match l with [] => 1%nat | _ :: _ => (2 * length l)%nat end.
Proof.
  intros H. rewrite setOutcome_missing by assumption.
  rewrite !length_app. simpl length.
  destruct l as [|x l]; [reflexivity |].
  rewrite removelast_firstn_len, length_firstn. simpl length. lia.
Qed.

(** C10. When no part carries the payload, [UPLOAD_SUCCESS] completes
    normally and its item list is the old list without its last element,
    then one part [{success: true}] without [id], then the whole old list:
    [2n] parts for [n > 0] old parts and one part for none.  The same holds
    for [UPLOAD_FAILED] with [{success: false}]. *)
Theorem outcome_for_missing_id (state : State) (payload : option Z) (ok : bool) :
  ~ In payload (map id (items state)) ->
  let state' := reducer state (outcomeAction (payload, ok)) in
  reducerCall state (outcomeAction (payload, ok)) = Normal state'
  /\ items state'
     = removelast (items state)
       ++ [{| id := None; success := Some ok |}] ++ items state
  /\ length (items state')
     = match items state with
       | [] => 1%nat
       | _ :: _ => (2 * length (items state))%nat
       end.
Proof.
  intros H. destruct ok; simpl; repeat split;
    solve [now apply setOutcome_missing | now apply length_setOutcome_missing].
Qed.

Lemma outcome_for_missing_id_witness :
  let state := {| isUploading := true;
                  items := [ {| id := Some 0; success := None |};
                             {| id := Some 1; success := Some false |} ] |} in
  ~ In (Some 7) (map id (items state))
  /\ items (reducer state (UPLOAD_SUCCESS (Some 7)))
     = [ {| id := Some 0; success := None |};
         {| id := None; success := Some true |};
         {| id := Some 0; success := None |};
         {| id := Some 1; success := Some false |} ].
Proof.
  intros state.
  assert (H : ~ In (Some 7) (map id (items state))).
  { simpl. intros [H | [H | []]]; discriminate H. }
  split; [exact H |].
  exact (proj1 (proj2 (outcome_for_missing_id state (Some 7) true H))).
Defined.

(** C3, as the code has it. When no part carries the payload, neither
    [UPLOAD_SUCCESS] nor [UPLOAD_FAILED] fails: the call completes normally,
    with a state whose item list is not the one it was given. *)
Theorem missing_id_not_rejected (state : State) (payload : option Z) (ok : bool) :
  ~ In payload (map id (items state)) ->
  exists state',
    reducerCall state (outcomeAction (payload, ok)) = Normal state'
    /\ items state' <> items state.
Proof.
  intros H. exists (reducer state (outcomeAction (payload, ok))).
  split; [reflexivity |].
  intros E. apply (f_equal (@length Part)) in E.
  destruct ok; simpl in E;
    rewrite length_setOutcome_missing in E by assumption;
    destruct (items state); simpl in E; lia.
Qed.

Lemma missing_id_not_rejected_witness :
  ~ In (Some 3) (map id (items initialState))
  /\ exists state',
       reducerCall initialState (UPLOAD_FAILED (Some 3)) = Normal state'
       /\ items state' <> items initialState.
Proof.
  assert (H : ~ In (Some 3) (map id (items initialState))).
  { simpl. intros []. }
  split; [exact H |].
  exact (missing_id_not_rejected initialState (Some 3) false H).
Defined.

(** C3 as the spec states it fails: on a ledger holding the one part [0],
    [UPLOAD_SUCCESS] for the identifier [7] does not end in [NotFoundError];
    it returns a ledger of two parts. *)
Lemma missing_id_counterexample :
  let state := {| isUploading := true;
                  items := [ {| id := Some 0; success := None |} ] |} in
  ~ In (Some 7) (map id (items state))
  /\ reducerCall state (UPLOAD_SUCCESS (Some 7)) <> Throw NotFoundError
  /\ reducerCall state (UPLOAD_SUCCESS (Some 7))
     = Normal {| isUploading := true;
                 items := [ {| id := None; success := Some true |};
                            {| id := Some 0; success := None |} ] |}.
Proof.
  simpl. repeat split.
  - intros [H | []]. discriminate H.
  - discriminate.
Qed.

(** *** The frame of a recorded outcome *)

Lemma nth_error_middle_other {A : Type} (l1 : list A) (p q : A) (l2 : list A) (j : nat) :
  j <> length l1 ->
  nth_error (l1 ++ q :: l2) j = nth_error (l1 ++ p :: l2) j.
Proof.
  intros H. destruct (Nat.lt_ge_cases j (length l1)) as [Hlt | Hge].
  - now rewrite !nth_error_app1.
  - rewrite !nth_error_app2 by assumption.
    destruct (j - length l1)%nat eqn:E; [lia | reflexivity].
Qed.

Lemma nth_error_middle {A : Type} (l1 : list A) (p : A) (l2 : list A) :
  nth_error (l1 ++ p :: l2) (length l1) = Some p.
Proof.
  rewrite nth_error_app2 by apply Nat.le_refl. now rewrite Nat.sub_diag.
Qed.

(** What [setOutcome] does for an identifier of the list: the first part
    carrying it, at index [k], gets the outcome and keeps its [id]. *)
Lemma setOutcome_frame (l : list Part) (payload : option Z) (v : bool) :
  In payload (map id l) ->
  length (setOutcome l payload v) = length l
  /\ map id (setOutcome l payload v) = map id l
  /\ exists k p,
       nth_error l k = Some p /\ id p = payload
       /\ (forall j q, (j < k)%nat -> nth_error l j = Some q -> id q <> payload)
       /\ nth_error (setOutcome l payload v) k
          = Some {| id := payload; success := Some v |}
       /\ (forall j, j <> k ->
             nth_error (setOutcome l payload v) j = nth_error l j).
Proof.
  intros H. destruct (split_at_id l payload H) as (l1 & p & l2 & -> & H1 & Hp).
  rewrite (setOutcome_found l1 p l2 payload v H1 Hp).
  split; [| split].
  - rewrite !length_app. reflexivity.
  - rewrite !map_app. reflexivity.
  - exists (length l1), p. repeat split.
    + apply nth_error_middle.
    + assumption.
    + intros j q Hj Hq. rewrite nth_error_app1 in Hq by assumption.
      apply H1. eapply nth_error_In. eassumption.
    + rewrite Hp. apply nth_error_middle.
    + intros j Hj. now apply nth_error_middle_other.
Qed.

Lemma items_outcome (state : State) (payload : option Z) (ok : bool) :
  items (reducer state (outcomeAction (payload, ok)))
  = setOutcome (items state) payload ok.
Proof. destruct ok; reflexivity. Qed.

(** C9. For an identifier carried by some part, [UPLOAD_SUCCESS] (and
    [UPLOAD_FAILED]) changes the [success] field of the first part with that
    identifier and nothing else of the item list: its length, the
    identifiers and their order, and every other part stay as they were. *)
Theorem outcome_frame (state : State) (payload : option Z) (ok : bool) :
  In payload (map id (items state)) ->
  let state' := reducer state (outcomeAction (payload, ok)) in
  length (items state') = length (items state)
  /\ map id (items state') = map id (items state)
  /\ exists k p,
       nth_error (items state) k = Some p /\ id p = payload
       /\ (forall j q, (j < k)%nat ->
             nth_error (items state) j = Some q -> id q <> payload)
       /\ nth_error (items state') k
          = Some {| id := payload; success := Some ok |}
       /\ (forall j, j <> k ->
             nth_error (items state') j = nth_error (items state) j).
Proof.
  intros H state'. subst state'. rewrite items_outcome.
  now apply setOutcome_frame.
Qed.

Lemma outcome_frame_witness :
  let state := {| isUploading := true;
                  items := [ {| id := Some 0; success := None |};
                             {| id := Some 1; success := None |} ] |} in
  In (Some 1) (map id (items state))
  /\ map id (items (reducer state (UPLOAD_FAILED (Some 1))))
     = map id (items state).
Proof.
  intros state. split.
  - simpl. right. left. reflexivity.
  - apply (outcome_frame state (Some 1) false). simpl. right. left. reflexivity.
Defined.

(** *** Outcomes of two different identifiers commute *)

(** The lists after both orders when the first part carrying [a] comes
    before the first part carrying [b]. *)
Lemma setOutcome_twice (l1 : list Part) (p : Part) (n1 : list Part) (q : Part)
      (n2 : list Part) (a b : option Z) (va vb : bool) :
  a <> b ->
  (forall x, In x l1 -> id x <> a) -> (forall x, In x l1 -> id x <> b) ->
  id p = a ->
  (forall x, In x n1 -> id x <> b) -> id q = b ->
  let l := l1 ++ p :: n1 ++ q :: n2 in
  let done := l1 ++ {| id := a; success := Some va |}
                 :: n1 ++ {| id := b; success := Some vb |} :: n2 in
  setOutcome (setOutcome l a va) b vb = done
  /\ setOutcome (setOutcome l b vb) a va = done.
Proof.
  intros Hab Ha1 Hb1 Hp Hbn Hq l done. subst l done.
  assert (Hb_front : forall y (l' : list Part),
             id y = a ->
             forall x, In x (l1 ++ y :: n1) -> id x <> b).
  { intros y _ Hy x Hx. apply in_app_or in Hx.
    destruct Hx as [Hx | [<- | Hx]]; [now apply Hb1 | congruence | now apply Hbn]. }
  split.
  - rewrite (setOutcome_found l1 p _ a va Ha1 Hp). rewrite Hp.
    change (l1 ++ ?y :: n1 ++ q :: n2) with (l1 ++ (y :: n1) ++ q :: n2).
    rewrite app_assoc.
    rewrite (setOutcome_found (l1 ++ _ :: n1) q n2 b vb);
      [ rewrite Hq, <- app_assoc; reflexivity
      | apply (Hb_front _ []); reflexivity
      | assumption ].
  - change (l1 ++ p :: n1 ++ q :: n2) with (l1 ++ (p :: n1) ++ q :: n2).
    rewrite app_assoc.
    rewrite (setOutcome_found (l1 ++ p :: n1) q n2 b vb);
      [ | apply (Hb_front _ []); assumption | assumption ].
    rewrite <- app_assoc. simpl app.
    rewrite (setOutcome_found l1 p _ a va Ha1 Hp). rewrite Hp, Hq. reflexivity.
Qed.

Lemma setOutcome_comm (l : list Part) (a b : option Z) (va vb : bool) :
  a <> b -> In a (map id l) -> In b (map id l) ->
  setOutcome (setOutcome l a va) b vb = setOutcome (setOutcome l b vb) a va.
Proof.
  intros Hab Ha Hb.
  destruct (split_at_id l a Ha) as (l1 & p & l2 & E & Ha1 & Hp).
  destruct (in_dec id_eq_dec b (map id l1)) as [Hin | Hnot].
  - (* the first [b] comes before the first [a] *)
    destruct (split_at_id l1 b Hin) as (m1 & q & m2 & E1 & Hb1 & Hq).
    subst l l1. rewrite <- app_assoc. simpl app.
    assert (Hm1 : forall x, In x m1 -> id x <> a)
      by (intros x Hx; apply Ha1, in_or_app; now left).
    assert (Hm2 : forall x, In x m2 -> id x <> a)
      by (intros x Hx; apply Ha1, in_or_app; right; now right).
    destruct (setOutcome_twice m1 q m2 p l2 b a vb va
                (not_eq_sym Hab) Hb1 Hm1 Hq Hm2 Hp) as [H1 H2].
    simpl in H1, H2. now rewrite H1, H2.
  - (* the first [b] comes after the first [a] *)
    assert (Hb2 : In b (map id l2)).
    { subst l. rewrite map_app in Hb. simpl in Hb.
      apply in_app_or in Hb. destruct Hb as [Hb | [Hb | Hb]];
        [contradiction | congruence | assumption]. }
    destruct (split_at_id l2 b Hb2) as (n1 & q & n2 & E2 & Hbn & Hq).
    subst l l2.
    assert (Hb1 : forall x, In x l1 -> id x <> b)
      by (intros x Hx E; apply Hnot; rewrite <- E; now apply in_map).
    destruct (setOutcome_twice l1 p n1 q n2 a b va vb
                Hab Ha1 Hb1 Hp Hbn Hq) as [H1 H2].
    simpl in H1, H2. now rewrite H1, H2.
Qed.

Lemma reducer_outcome_comm (state : State) (a b : option Z) (va vb : bool) :
  a <> b -> In a (map id (items state)) -> In b (map id (items state)) ->
  reducer (reducer state (outcomeAction (a, va))) (outcomeAction (b, vb))
  = reducer (reducer state (outcomeAction (b, vb))) (outcomeAction (a, va)).
Proof.
  intros Hab Ha Hb.
  pose proof (setOutcome_comm (items state) a b va vb Hab Ha Hb) as E.
  destruct va, vb; simpl; rewrite E; reflexivity.
Qed.

(** C7. For two different identifiers carried by parts of the ledger, the
    two outcome actions (each [UPLOAD_SUCCESS] or [UPLOAD_FAILED]) give the
    same state in either order. *)
Theorem outcomes_commute (state : State) (a b : option Z) (va vb : bool) :
  a <> b -> In a (map id (items state)) -> In b (map id (items state)) ->
  dispatchAll state [(a, va); (b, vb)] = dispatchAll state [(b, vb); (a, va)].
Proof.
  intros Hab Ha Hb. unfold dispatchAll. simpl fold_left.
  now apply reducer_outcome_comm.
Qed.

Lemma outcomes_commute_witness :
  let state := initialize 3 initialState in
  (Some 2 <> Some 0 /\ In (Some 2) (map id (items state))
   /\ In (Some 0) (map id (items state)))
  /\ dispatchAll state [(Some 2, true); (Some 0, false)]
     = dispatchAll state [(Some 0, false); (Some 2, true)].
Proof.
  intros state.
  assert (H2 : In (Some 2) (map id (items state)))
    by (simpl; right; right; left; reflexivity).
  assert (H0 : In (Some 0) (map id (items state)))
    by (simpl; left; reflexivity).
  assert (Hd : Some 2 <> Some 0) by discriminate.
  split; [repeat split; assumption |].
  exact (outcomes_commute state (Some 2) (Some 0) true false Hd H2 H0).
Defined.

(** X14. The same for a whole run: when the reported identifiers are
    pairwise different and all carried by parts of the ledger, the final
    state does not depend on the order in which the outcomes arrive. *)
Lemma dispatchAll_order_independent (cs cs' : list (option Z * bool)) :
  Permutation cs cs' ->
  forall state,
    NoDup (map fst cs) ->
    Forall (fun c => In (fst c) (map id (items state))) cs ->
    dispatchAll state cs = dispatchAll state cs'.
Proof.
  induction 1 as [| c l l' HP IH | c d l | l l' l'' HP1 IH1 HP2 IH2];
    intros state Hnd Hin.
  - reflexivity.
  - unfold dispatchAll. simpl. apply IH.
    + now inversion Hnd.
    + inversion Hin as [| ? ? Hc Hl]; subst.
      destruct c as [a va]. simpl in Hc.
      eapply Forall_impl; [| exact Hl]. intros e He. simpl.
      rewrite items_outcome.
      now rewrite (proj1 (proj2 (setOutcome_frame _ a va Hc))).
  - unfold dispatchAll. simpl. f_equal.
    destruct c as [a va], d as [b vb].
    inversion Hin as [| ? ? Hb Hl]; subst. inversion Hl as [| ? ? Ha _]; subst.
    simpl in Ha, Hb. apply reducer_outcome_comm; try assumption.
    simpl in Hnd. inversion Hnd as [| ? ? Hnotin _]; subst.
    intros E. apply Hnotin. left. now symmetry.
  - rewrite (IH1 state Hnd Hin). apply IH2.
    + eapply Permutation_NoDup; [| exact Hnd]. now apply Permutation_map.
    + eapply Permutation_Forall; eassumption.
Qed.

(** ** Starting a run *)

Lemma pending_after_reset (l : list Part) :
  pending (map (fun p => if truthy (success p) then p
                         else {| id := id p; success := None |}) l)
  = map (fun p => {| id := id p; success := None |})
        (filter (fun part => negb (strict_eq_tri (success part) (Some true))) l).
Proof.
  induction l as [|p l IH]; [reflexivity |].
  unfold pending in *. simpl.
  destruct p as [i [[|]|]]; simpl; rewrite IH; reflexivity.
Qed.

(** C4. [START_UPLOAD] sets [isUploading], turns every failed part into an
    unresolved one, leaves succeeded (and unresolved) parts as they are, and
    the identifiers [run] submits to the queue, taken from [toProcess], are
    those of the unresolved parts of the resulting state, in the same
    order. *)
Theorem start_upload_resets (state : State) :
  let state' := reducer state START_UPLOAD in
  isUploading state' = true
  /\ length (items state') = length (items state)
  /\ (forall k p, nth_error (items state) k = Some p ->
        (success p = Some true -> nth_error (items state') k = Some p)
        /\ (success p = Some false ->
              nth_error (items state') k
              = Some {| id := id p; success := None |})
        /\ (success p = None -> nth_error (items state') k = Some p))
  /\ map id (toProcess state) = map id (pending (items state'))
  /\ Queue.waiting (Queue.enqueued state) = map id (pending (items state'))
  /\ Queue.store (Queue.enqueued state) = state'.
Proof.
  simpl. repeat split.
  - apply length_map.
  - intros Hs. rewrite nth_error_map, H. simpl. now rewrite Hs.
  - intros Hs. rewrite nth_error_map, H. simpl. now rewrite Hs.
  - intros Hs. rewrite nth_error_map, H. simpl. rewrite Hs. simpl.
    destruct p as [i s]. simpl in Hs. now subst s.
  - rewrite pending_after_reset, map_map. reflexivity.
  - rewrite pending_after_reset, map_map. reflexivity.
Qed.

(** The retry example of the spec: parts [0] succeeded, [1] and [2] failed. *)
Example start_upload_retry :
  map id (pending (items (reducer
    {| isUploading := false;
       items := [ {| id := Some 0; success := Some true |};
                  {| id := Some 1; success := Some false |};
                  {| id := Some 2; success := Some false |} ] |}
    START_UPLOAD)))
  = [Some 1; Some 2].
Proof. reflexivity. Qed.

(** ** Succeeded parts stay succeeded *)

Lemma NoDup_map_eq {A B : Type} (f : A -> B) (l : list A) (x y : A) :
  NoDup (map f l) -> In x l -> In y l -> f x = f y -> x = y.
Proof.
  induction l as [|z l IH]; intros Hnd Hx Hy E; [destruct Hx |].
  simpl in Hnd. inversion Hnd as [| ? ? Hz Hl]; subst.
  destruct Hx as [<- | Hx], Hy as [<- | Hy].
  - reflexivity.
  - exfalso. apply Hz. rewrite E. now apply in_map.
  - exfalso. apply Hz. rewrite <- E. now apply in_map.
  - now apply IH.
Qed.

Lemma toProcess_skips_succeeded (state : State) (p : Part) :
  NoDup (map id (items state)) -> In p (items state) ->
  success p = Some true ->
  ~ In (id p) (map id (toProcess state)).
Proof.
  intros Hnd Hp Hs H. apply in_map_iff in H. destruct H as (q & E & Hq).
  unfold toProcess in Hq. apply filter_In in Hq. destruct Hq as [Hq Hneg].
  assert (q = p) by (eapply NoDup_map_eq; eassumption).
  subst q. rewrite Hs in Hneg. discriminate.
Qed.

Lemma toProcess_ids_present (state : State) (x : option Z) :
  In x (map id (toProcess state)) -> In x (map id (items state)).
Proof.
  intros H. apply in_map_iff in H. destruct H as (q & <- & Hq).
  apply in_map. unfold toProcess in Hq. now apply filter_In in Hq.
Qed.

Lemma ids_after_start (state : State) :
  map id (items (reducer state START_UPLOAD)) = map id (items state).
Proof.
  simpl. rewrite map_map. apply map_ext.
  intros p. now destruct (truthy (success p)).
Qed.

Lemma start_keeps_succeeded (state : State) (k : nat) (p : Part) :
  nth_error (items state) k = Some p -> success p = Some true ->
  nth_error (items (reducer state START_UPLOAD)) k = Some p.
Proof.
  intros H Hs. simpl. rewrite nth_error_map, H. simpl. now rewrite Hs.
Qed.

Lemma ids_after_outcome (state : State) (payload : option Z) (ok : bool) :
  In payload (map id (items state)) ->
  map id (items (reducer state (outcomeAction (payload, ok))))
  = map id (items state).
Proof.
  intros Hin. rewrite items_outcome.
  exact (proj1 (proj2 (setOutcome_frame (items state) payload ok Hin))).
Qed.

Lemma ids_after_dispatchAll (cs : list (option Z * bool)) :
  forall state,
    Forall (fun c => In (fst c) (map id (items state))) cs ->
    map id (items (dispatchAll state cs)) = map id (items state).
Proof.
  induction cs as [|[x ok] cs IH]; intros state Hcs; [reflexivity |].
  inversion Hcs as [| ? ? Hin Hrest]; subst. simpl in Hin.
  unfold dispatchAll. simpl.
  rewrite <- (ids_after_outcome state x ok Hin).
  apply IH. eapply Forall_impl; [| exact Hrest].
  intros c Hc. simpl. now rewrite ids_after_outcome.
Qed.

Lemma ids_after_runPass (state : State) (cs : list (option Z * bool)) :
  reportsSubmitted state cs ->
  map id (items (runPass state cs)) = map id (items state).
Proof.
  intros Hcs. unfold runPass. rewrite ids_after_dispatchAll.
  - apply ids_after_start.
  - eapply Forall_impl; [| exact Hcs]. intros c Hc. cbv beta.
    rewrite ids_after_start. now apply toProcess_ids_present.
Qed.

Lemma ids_after_passes (state state' : State) :
  passes state state' -> map id (items state') = map id (items state).
Proof.
  induction 1 as [state | state cs state' Hcs Hrest IH]; [reflexivity |].
  rewrite IH. now apply ids_after_runPass.
Qed.

Lemma outcome_keeps_other (state : State) (payload : option Z) (ok : bool)
      (k : nat) (p : Part) :
  In payload (map id (items state)) -> payload <> id p ->
  nth_error (items state) k = Some p ->
  nth_error (items (reducer state (outcomeAction (payload, ok)))) k = Some p.
Proof.
  intros Hin Hne Hk. rewrite items_outcome.
  destruct (setOutcome_frame (items state) payload ok Hin)
    as (_ & _ & k0 & p0 & Hk0 & Hp0 & _ & _ & Hothers).
  rewrite Hothers; [assumption |].
  intros ->. rewrite Hk in Hk0. injection Hk0 as ->. now apply Hne.
Qed.

Lemma dispatchAll_keeps_other (k : nat) (p : Part) (cs : list (option Z * bool)) :
  forall state,
    Forall (fun c => In (fst c) (map id (items state)) /\ fst c <> id p) cs ->
    nth_error (items state) k = Some p ->
    nth_error (items (dispatchAll state cs)) k = Some p.
Proof.
  induction cs as [|[x ok] cs IH]; intros state Hcs Hk; [assumption |].
  inversion Hcs as [| ? ? [Hin Hne] Hrest]; subst. simpl in Hin, Hne.
  unfold dispatchAll. simpl. apply IH.
  - eapply Forall_impl; [| exact Hrest].
    intros c [Hc1 Hc2]. split; [now rewrite ids_after_outcome | assumption].
  - now apply outcome_keeps_other.
Qed.

Lemma runPass_keeps_succeeded (state : State) (cs : list (option Z * bool))
      (k : nat) (p : Part) :
  NoDup (map id (items state)) ->
  nth_error (items state) k = Some p -> success p = Some true ->
  reportsSubmitted state cs ->
  nth_error (items (runPass state cs)) k = Some p.
Proof.
  intros Hnd Hk Hs Hcs. unfold runPass.
  apply dispatchAll_keeps_other.
  - eapply Forall_impl; [| exact Hcs]. intros c Hc. cbv beta in Hc. split.
    + rewrite ids_after_start. now apply toProcess_ids_present.
    + intros E. rewrite E in Hc.
      eapply toProcess_skips_succeeded; try eassumption.
      eapply nth_error_In. eassumption.
  - now apply start_keeps_succeeded.
Qed.

Lemma passes_keep_succeeded (state state' : State) (k : nat) (p : Part) :
  passes state state' ->
  NoDup (map id (items state)) ->
  nth_error (items state) k = Some p -> success p = Some true ->
  nth_error (items state') k = Some p.
Proof.
  induction 1 as [state | state cs state' Hcs Hrest IH]; intros Hnd Hk Hs.
  - assumption.
  - apply IH; [| | assumption].
    + now rewrite ids_after_runPass.
    + now apply runPass_keeps_succeeded.
Qed.

Lemma iter_start_keeps_succeeded (state : State) (k : nat) (p : Part) (n : nat) :
  nth_error (items state) k = Some p -> success p = Some true ->
  nth_error (items (Nat.iter n (fun s => reducer s START_UPLOAD) state)) k
  = Some p.
Proof.
  intros Hk Hs. induction n as [|n IH]; [assumption |].
  simpl Nat.iter. now apply start_keeps_succeeded.
Qed.

(** C5. In a ledger whose identifiers are pairwise different, a succeeded
    part stays as it is, in its place, under any number of [START_UPLOAD]
    actions and under any number of further passes, whatever the outcomes
    and their order; its identifier is never among those [run] submits. *)
Theorem succeeded_is_final (state : State) (k : nat) (p : Part) :
  NoDup (map id (items state)) ->
  nth_error (items state) k = Some p -> success p = Some true ->
  (forall n,
     nth_error (items (Nat.iter n (fun s => reducer s START_UPLOAD) state)) k
     = Some p)
  /\ (forall state', passes state state' ->
        nth_error (items state') k = Some p
        /\ ~ In (id p) (map id (toProcess state'))).
Proof.
  intros Hnd Hk Hs. split.
  - intros n. now apply iter_start_keeps_succeeded.
  - intros state' Hpasses.
    assert (Hk' : nth_error (items state') k = Some p)
      by (eapply passes_keep_succeeded; eassumption).
    split; [assumption |].
    eapply toProcess_skips_succeeded; try eassumption.
    + rewrite (ids_after_passes state state' Hpasses). assumption.
    + eapply nth_error_In. eassumption.
Qed.

Lemma succeeded_is_final_witness :
  let p := {| id := Some 0; success := Some true |} in
  let state := {| isUploading := false;
                  items := [ p; {| id := Some 1; success := Some false |};
                             {| id := Some 2; success := Some false |} ] |} in
  (NoDup (map id (items state)) /\ nth_error (items state) 0 = Some p
   /\ success p = Some true)
  /\ nth_error (items (runPass state [(Some 2, true); (Some 1, false)])) 0
     = Some p.
Proof.
  intros p state.
  assert (Hnd : NoDup (map id (items state))).
  { simpl. repeat constructor; simpl; intuition discriminate. }
  split; [repeat split; [exact Hnd]|].
  refine (proj1 (proj2 (succeeded_is_final state 0 p Hnd eq_refl eq_refl)
                       (runPass state [(Some 2, true); (Some 1, false)]) _)).
  apply (passes_more state [(Some 2, true); (Some 1, false)]);
    [| apply passes_done].
  unfold reportsSubmitted.
  apply Forall_cons; [simpl; right; left; reflexivity |].
  apply Forall_cons; [simpl; left; reflexivity | apply Forall_nil].
Defined.

(** The ledgers the program builds satisfy the hypothesis of uniqueness:
    [handleInitialize] creates pairwise different identifiers, and passes
    keep the identifiers. *)
Lemma initialize_ids_distinct (n : nat) (state state' : State) :
  passes (initialize n state) state' -> NoDup (map id (items state')).
Proof.
  intros H. rewrite (ids_after_passes _ _ H).
  unfold initialize. simpl. rewrite fakeParts_seq, !map_map.
  apply Finite.Injective_map_NoDup; [| apply seq_NoDup].
  intros i j E. simpl in E. injection E as E. lia.
Qed.

(** Uniqueness is needed: [findIndex] stops at the first part carrying the
    identifier, so with two parts [0], one succeeded and one failed, the
    retry of the failed one overwrites the succeeded one. *)
Example duplicate_ids_overwrite :
  items (runPass
           {| isUploading := false;
              items := [ {| id := Some 0; success := Some true |};
                         {| id := Some 0; success := Some false |} ] |}
           [(Some 0, false)])
  = [ {| id := Some 0; success := Some false |};
      {| id := Some 0; success := None |} ].
Proof. reflexivity. Qed.

(** ** The queue *)

Section QueueProperties.

Import Queue.

Lemma tryToStartAnother_bound (r : Run) :
  (length (inFlight r) <= WORKER_POOL)%nat ->
  (length (inFlight (tryToStartAnother r)) <= WORKER_POOL)%nat.
Proof.
  intros H. unfold tryToStartAnother.
  destruct (waiting r) as [|x q]; [assumption |].
  destruct (Nat.ltb_spec (length (inFlight r)) WORKER_POOL); [| assumption].
  simpl. rewrite length_app. simpl. lia.
Qed.

Lemma start_bound (r : Run) :
  (length (inFlight r) <= WORKER_POOL)%nat ->
  (length (inFlight (start r)) <= WORKER_POOL)%nat.
Proof.
  intros H. unfold start.
  induction (length (waiting r)) as [|n IH]; [assumption |].
  simpl Nat.iter. now apply tryToStartAnother_bound.
Qed.

Lemma remove1_length (x : option Z) (l : list (option Z)) :
  In x l -> S (length (remove1 x l)) = length l.
Proof.
  induction l as [|y l IH]; intros H; [destruct H |].
  simpl. destruct (strict_eq x y) eqn:E; [reflexivity |].
  simpl. f_equal. apply IH. destruct H as [-> | H]; [| assumption].
  apply strict_eq_false in E. now elim E.
Qed.

Lemma remove1_perm (x : option Z) (l : list (option Z)) :
  In x l -> Permutation (x :: remove1 x l) l.
Proof.
  induction l as [|y l IH]; intros H; [destruct H |].
  simpl. destruct (strict_eq x y) eqn:E.
  - apply strict_eq_true in E. now subst y.
  - assert (Hl : In x l).
    { destruct H as [-> | H]; [| assumption].
      apply strict_eq_false in E. now elim E. }
    rewrite perm_swap. apply perm_skip. now apply IH.
Qed.

Lemma tryToStartAnother_tasks (r : Run) : tasks (tryToStartAnother r) = tasks r.
Proof.
  unfold tryToStartAnother.
  destruct (waiting r) as [|x q] eqn:E; [reflexivity |].
  destruct (length (inFlight r) <? WORKER_POOL)%nat; [| reflexivity].
  unfold tasks. simpl. now rewrite E, <- app_assoc.
Qed.

Lemma tryToStartAnother_store (r : Run) :
  store (tryToStartAnother r) = store r
  /\ reported (tryToStartAnother r) = reported r.
Proof.
  unfold tryToStartAnother.
  destruct (waiting r) as [|x q]; [now split |].
  destruct (length (inFlight r) <? WORKER_POOL)%nat; now split.
Qed.

Lemma start_unchanged (r : Run) :
  tasks (start r) = tasks r /\ store (start r) = store r
  /\ reported (start r) = reported r.
Proof.
  unfold start. induction (length (waiting r)) as [|n IH]; [now repeat split |].
  simpl Nat.iter. destruct IH as (H1 & H2 & H3).
  rewrite tryToStartAnother_tasks.
  destruct (tryToStartAnother_store (Nat.iter n tryToStartAnother r)) as [-> ->].
  now repeat split.
Qed.

Lemma settle_tasks (r : Run) (x : option Z) (ok : bool) :
  In x (inFlight r) -> Permutation (tasks (settle r x ok)) (tasks r).
Proof.
  intros H. unfold settle. rewrite tryToStartAnother_tasks.
  unfold tasks. simpl. rewrite map_app, <- app_assoc. simpl.
  apply Permutation_app_head. now apply (remove1_perm x (inFlight r)) in H;
    apply (Permutation_app_tail (waiting r)) in H.
Qed.

Lemma settle_store (r : Run) (x : option Z) (ok : bool) :
  store (settle r x ok) = reducer (store r) (outcomeAction (x, ok))
  /\ reported (settle r x ok) = reported r ++ [(x, ok)].
Proof.
  unfold settle.
  destruct (tryToStartAnother_store
              {| store := reducer (store r) (outcomeAction (x, ok));
                 waiting := waiting r;
                 inFlight := remove1 x (inFlight r);
                 reported := reported r ++ [(x, ok)] |}) as [-> ->].
  now split.
Qed.

(** Every task of [toProcess] is, at every moment, waiting, in flight or
    reported, and in one of these stages only. *)
Lemma reachable_tasks (state : State) (r : Run) :
  reachable state r -> Permutation (tasks r) (map id (toProcess state)).
Proof.
  induction 1 as [| | r x ok Hr IH Hx].
  - apply Permutation_refl.
  - unfold started. rewrite (proj1 (start_unchanged _)).
    apply Permutation_refl.
  - now rewrite settle_tasks.
Qed.

(** The ledger of a run is the one [runPass] computes from the outcomes
    reported so far, and only submitted identifiers are reported. *)
Lemma reachable_store (state : State) (r : Run) :
  reachable state r ->
  store r = runPass state (reported r) /\ reportsSubmitted state (reported r).
Proof.
  induction 1 as [| | r x ok Hr [IH1 IH2] Hx].
  - split; [reflexivity | constructor].
  - unfold started.
    destruct (start_unchanged (enqueued state)) as (_ & -> & ->).
    split; [reflexivity | constructor].
  - destruct (settle_store r x ok) as [-> ->]. split.
    + rewrite IH1. unfold runPass, dispatchAll.
      now rewrite map_app, fold_left_app.
    + apply Forall_app. split; [assumption |].
      constructor; [| constructor]. simpl.
      eapply Permutation_in; [apply reachable_tasks; eassumption |].
      unfold tasks. apply in_or_app. right. apply in_or_app. now left.
Qed.

Lemma reachable_bound (state : State) (r : Run) :
  reachable state r -> (length (inFlight r) <= WORKER_POOL)%nat.
Proof.
  induction 1 as [| | r x ok Hr IH Hx].
  - simpl. apply Nat.le_0_l.
  - apply start_bound. simpl. apply Nat.le_0_l.
  - unfold settle. apply tryToStartAnother_bound. simpl.
    pose proof (remove1_length x (inFlight r) Hx). lia.
Qed.

(** C1. In every state a run goes through, for every order in which the
    requests settle and every outcome, at most [WORKER_POOL] = 5 tasks are
    started and not yet completed. *)
Theorem in_flight_bounded (state : State) (r : Run) :
  reachable state r ->
  (length (inFlight r) <= WORKER_POOL)%nat /\ WORKER_POOL = 5%nat.
Proof.
  intros H. split; [now apply (reachable_bound state) | reflexivity].
Qed.

Lemma in_flight_bounded_witness :
  let state := initialize 7 initialState in
  let r := settle (settle (started state) (Some 3) true) (Some 0) false in
  reachable state r
  /\ inFlight r = [Some 1; Some 2; Some 4; Some 5; Some 6]
  /\ (length (inFlight r) <= WORKER_POOL)%nat.
Proof.
  intros state r.
  assert (H : reachable state r).
  { apply reach_settle; [apply reach_settle; [apply reach_started |] |].
    - vm_compute. right. right. right. left. reflexivity.
    - vm_compute. left. reflexivity. }
  split; [exact H |]. split; [reflexivity |].
  exact (proj1 (in_flight_bounded state r H)).
Defined.

(** *** No slot stays idle while a task waits *)

Lemma tryToStartAnother_fixed (r : Run) :
  waiting r = [] \/ (WORKER_POOL <= length (inFlight r))%nat ->
  tryToStartAnother r = r.
Proof.
  intros [H | H]; unfold tryToStartAnother.
  - now rewrite H.
  - destruct (waiting r); [reflexivity |].
    destruct (Nat.ltb_spec (length (inFlight r)) WORKER_POOL); [lia | reflexivity].
Qed.

Lemma iter_fixed {A : Type} (f : A -> A) (x : A) (n : nat) :
  f x = x -> Nat.iter n f x = x.
Proof.
  intros H. induction n as [|n IH]; [reflexivity |].
  simpl. now rewrite IH.
Qed.

Lemma iter_saturates (n : nat) :
  forall r,
    (length (waiting r) <= n)%nat ->
    (length (inFlight r) <= WORKER_POOL)%nat ->
    waiting (Nat.iter n tryToStartAnother r) = []
    \/ length (inFlight (Nat.iter n tryToStartAnother r)) = WORKER_POOL.
Proof.
  induction n as [|n IH]; intros r Hn Hb.
  - left. simpl. destruct (waiting r); [reflexivity | simpl in Hn; lia].
  - rewrite Nat.iter_succ_r.
    destruct (waiting r) as [|x q] eqn:E.
    + rewrite (tryToStartAnother_fixed r) by now left.
      apply IH; [rewrite E; simpl; lia | assumption].
    + destruct (Nat.ltb_spec (length (inFlight r)) WORKER_POOL) as [Hlt | Hge].
      * apply IH.
        -- unfold tryToStartAnother. rewrite E.
           destruct (Nat.ltb_spec (length (inFlight r)) WORKER_POOL); [| lia].
           simpl. simpl in Hn. lia.
        -- now apply tryToStartAnother_bound.
      * rewrite (tryToStartAnother_fixed r) by now right.
        rewrite iter_fixed by (apply tryToStartAnother_fixed; now right).
        right. lia.
Qed.

(** Once [start()] has been called, a task waits only while all
    [WORKER_POOL] slots are taken: the queue is a sliding window, not a
    sequence of waves. *)
Lemma no_idle_slot (state : State) (r : Run) :
  reachable state r ->
  r = enqueued state \/ waiting r = []
  \/ length (inFlight r) = WORKER_POOL.
Proof.
  induction 1 as [| | r x ok Hr IH Hx].
  - now left.
  - right. unfold started, start. apply iter_saturates.
    + apply Nat.le_refl.
    + simpl. apply Nat.le_0_l.
  - right.
    pose proof (remove1_length x (inFlight r) Hx) as Hlen.
    pose proof (reachable_bound state r Hr) as Hb.
    unfold settle, tryToStartAnother. simpl.
    destruct (waiting r) as [|y q] eqn:E; [now left |].
    destruct (Nat.ltb_spec (length (remove1 x (inFlight r))) WORKER_POOL)
      as [Hlt | Hge]; [| lia].
    right. simpl. rewrite length_app. simpl.
    destruct IH as [-> | [Hw | Hfull]].
    + destruct Hx.
    + discriminate Hw.
    + lia.
Qed.

(** *** The two signals of the queue *)

(** When the queue is idle every submitted identifier has been reported,
    and the ledger holds all the outcomes. *)
Lemma onIdle_all_reported (state : State) (r : Run) :
  reachable state r -> onIdle r = true ->
  Permutation (map fst (reported r)) (map id (toProcess state))
  /\ store r = runPass state (reported r).
Proof.
  intros Hr Hidle. split; [| now apply reachable_store].
  pose proof (reachable_tasks state r Hr) as HP.
  unfold onIdle, onEmpty in Hidle. unfold tasks in HP.
  destruct (waiting r); [| discriminate].
  destruct (inFlight r); [| discriminate].
  now rewrite !app_nil_r in HP.
Qed.

(** What [start()] leaves: the first [WORKER_POOL] submitted tasks in
    flight, the others waiting, nothing reported. *)
Lemma iter_window (w : list (option Z)) :
  forall (s : State) (a : list (option Z)) (rep : list (option Z * bool)),
    (length a <= WORKER_POOL)%nat ->
    Nat.iter (length w) tryToStartAnother
      {| store := s; waiting := w; inFlight := a; reported := rep |}
    = {| store := s;
         waiting := skipn (WORKER_POOL - length a) w;
         inFlight := a ++ firstn (WORKER_POOL - length a) w;
         reported := rep |}.
Proof.
  induction w as [|x w IH]; intros s a rep Ha.
  - cbn [length Nat.iter]. now rewrite skipn_nil, firstn_nil, app_nil_r.
  - cbn [length]. rewrite Nat.iter_succ_r.
    unfold tryToStartAnother at 2. cbn [waiting inFlight store reported].
    destruct (Nat.ltb_spec (length a) WORKER_POOL) as [Hlt | Hge].
    + rewrite IH by (rewrite length_app; cbn [length]; lia).
      rewrite length_app. cbn [length].
      replace (WORKER_POOL - length a)%nat
        with (S (WORKER_POOL - (length a + 1)))%nat by lia.
      cbn [skipn firstn]. now rewrite <- app_assoc.
    + rewrite iter_fixed
        by (apply tryToStartAnother_fixed; right; cbn [inFlight]; lia).
      replace (WORKER_POOL - length a)%nat with 0%nat by lia.
      cbn [skipn firstn]. now rewrite app_nil_r.
Qed.

Lemma started_window (state : State) :
  started state
  = {| store := reducer state START_UPLOAD;
       waiting := skipn WORKER_POOL (map id (toProcess state));
       inFlight := firstn WORKER_POOL (map id (toProcess state));
       reported := [] |}.
Proof.
  unfold started, start, enqueued. cbn [waiting].
  rewrite iter_window by apply Nat.le_0_l.
  cbn [length app]. now rewrite Nat.sub_0_r.
Qed.

(** With at most [WORKER_POOL] parts to process, the queue is empty as soon
    as [start()] returns, before any outcome has been dispatched. *)
Lemma started_empty (state : State) :
  (length (toProcess state) <= WORKER_POOL)%nat ->
  onEmpty (started state) = true
  /\ inFlight (started state) = map id (toProcess state)
  /\ reported (started state) = []
  /\ store (started state) = reducer state START_UPLOAD.
Proof.
  intros H. rewrite started_window. unfold onEmpty.
  cbn [waiting inFlight store reported].
  rewrite skipn_all2, firstn_all2 by (rewrite length_map; assumption).
  now repeat split.
Qed.

(** C2, evaluated on a ledger with the single unresolved part [0]. [run]
    awaits [onEmpty()] right after [start()]; at that point the queue is
    already empty, so the promise is settled, while the task of part [0] is
    still in flight: no outcome has been dispatched, the part is still
    unresolved in the store and the queue is not idle. *)
Theorem run_resolves_before_outcomes :
  let state := {| isUploading := false;
                  items := [ {| id := Some 0; success := None |} ] |} in
  let r := started state in
  reachable state r
  /\ onEmpty r = true
  /\ inFlight r = [Some 0]
  /\ reported r = []
  /\ store r = {| isUploading := true;
                  items := [ {| id := Some 0; success := None |} ] |}
  /\ onIdle r = false.
Proof.
  intros state r. split; [apply reach_started |].
  repeat split.
Qed.

(** *** Running the model *)

Lemma replay_reachable (state : State) (cs : list (option Z * bool)) :
  forall r r',
    reachable state r -> replay r cs = Some r' -> reachable state r'.
Proof.
  induction cs as [|[x ok] cs IH]; simpl; intros r r' Hr E.
  - injection E as <-. assumption.
  - destruct (existsb (strict_eq x) (inFlight r)) eqn:Hx; [| discriminate].
    apply (IH (settle r x ok)); [| assumption].
    apply reach_settle; [assumption |].
    apply existsb_exists in Hx. destruct Hx as (y & Hy & Hxy).
    apply strict_eq_true in Hxy. now subst y.
Qed.

(** The end-to-end scenario of the spec, with the pool size of the source:
    four parts, even identifiers succeed and odd ones fail, completions out
    of submission order. *)
Example end_to_end :
  option_map store
    (replay (started (initialize 4 initialState))
            [(Some 2, true); (Some 0, true); (Some 3, false); (Some 1, false)])
  = Some {| isUploading := false;
            items := [ {| id := Some 0; success := Some true |};
                       {| id := Some 1; success := Some false |};
                       {| id := Some 2; success := Some true |};
                       {| id := Some 3; success := Some false |} ] |}.
Proof. reflexivity. Qed.

End QueueProperties.

(** * Further properties of the ledger *)

(** ** Counters and buttons *)

Lemma counters_sum (l : list Part) :
  (length (filter (fun p => strict_eq_tri (success p) None) l)
   + length (filter (fun p => negb (strict_eq_tri (success p) None)) l))%nat
  = length l
  /\ length (filter (fun p => negb (strict_eq_tri (success p) None)) l)
     = (length (getFailedParts l) + length (getSuccessParts l))%nat
  /\ length (filter (fun part => negb (strict_eq_tri (success part) (Some true))) l)
     = (length (filter (fun p => strict_eq_tri (success p) None) l)
        + length (getFailedParts l))%nat.
Proof.
  unfold getFailedParts, getSuccessParts.
  induction l as [|p l (IH1 & IH2 & IH3)]; [now repeat split |].
  destruct p as [i [[|]|]]; simpl; repeat split; lia.
Qed.

(** X1. The counters of the component agree with the item list: pending
    plus done parts are all parts, the done parts are the failed and the
    succeeded ones, and [toProcess] of [run] holds as many parts as are
    pending or failed. *)
Theorem counters_partition (state : State) :
  (numPending state + numDone state)%nat = length (items state)
  /\ numDone state
     = (numFailed state + length (getSuccessParts (items state)))%nat
  /\ length (toProcess state) = (numPending state + numFailed state)%nat.
Proof.
  unfold numPending, numDone, numFailed, toProcess.
  apply counters_sum.
Qed.

Lemma runDisabled_toProcess (state : State) :
  runDisabled state
  = (isUploading state
     || match toProcess state with [] => true | _ :: _ => false end).
Proof.
  unfold runDisabled, notNumber. f_equal.
  pose proof (proj2 (proj2 (counters_sum (items state)))) as Hlen.
  fold (toProcess state) in Hlen.
  change (length (filter (fun p => strict_eq_tri (success p) None) (items state)))
    with (numPending state) in Hlen.
  change (length (getFailedParts (items state))) with (numFailed state) in Hlen.
  destruct (toProcess state) as [|p l]; simpl in Hlen.
  - replace (numPending state) with 0%nat by lia.
    replace (numFailed state) with 0%nat by lia. reflexivity.
  - destruct (Nat.eqb_spec (numPending state) 0) as [Hp | Hp]; [| reflexivity].
    destruct (Nat.eqb_spec (numFailed state) 0) as [Hf | Hf]; [lia | reflexivity].
Qed.

(** X2. The Run button is enabled exactly when no upload is marked as
    running and [run] would find at least one part to process. *)
Theorem run_button_enabled (state : State) :
  runDisabled state = false
  <-> isUploading state = false /\ toProcess state <> [].
Proof.
  rewrite runDisabled_toProcess.
  destruct (isUploading state), (toProcess state) as [|p l]; simpl; split.
  all: try discriminate.
  all: try (intros [H1 H2]; solve [discriminate H1 | now elim H2]).
  - intros _. split; [reflexivity | discriminate].
  - intros _. reflexivity.
Qed.

(** ** [START_UPLOAD] *)

Lemma reset_items_twice (l : list Part) :
  map (fun p => if truthy (success p) then p
                else {| id := id p; success := None |})
      (map (fun p => if truthy (success p) then p
                     else {| id := id p; success := None |}) l)
  = map (fun p => if truthy (success p) then p
                  else {| id := id p; success := None |}) l.
Proof.
  rewrite map_map. apply map_ext. intros [i [[|]|]]; reflexivity.
Qed.

(** X3. [START_UPLOAD] is idempotent: dispatching it again changes
    nothing. *)
Theorem start_upload_idempotent (state : State) :
  reducer (reducer state START_UPLOAD) START_UPLOAD
  = reducer state START_UPLOAD.
Proof.
  simpl. now rewrite reset_items_twice.
Qed.

Lemma counts_after_reset (l : list Part) :
  let l' := map (fun p => if truthy (success p) then p
                          else {| id := id p; success := None |}) l in
  getFailedParts l' = []
  /\ getSuccessParts l' = getSuccessParts l
  /\ length (filter (fun p => strict_eq_tri (success p) None) l')
     = (length (filter (fun p => strict_eq_tri (success p) None) l)
        + length (getFailedParts l))%nat.
Proof.
  unfold getFailedParts, getSuccessParts.
  induction l as [|p l (IH1 & IH2 & IH3)]; [now repeat split |].
  destruct p as [i [[|]|]]; simpl; repeat split;
    solve [assumption | now f_equal | simpl in *; lia].
Qed.

(** X4. After [START_UPLOAD] no part is failed, the succeeded parts are the
    same as before, and the pending parts are the former pending and failed
    ones. *)
Theorem start_upload_counts (state : State) :
  let state' := reducer state START_UPLOAD in
  getFailedParts (items state') = []
  /\ numFailed state' = 0%nat
  /\ getSuccessParts (items state') = getSuccessParts (items state)
  /\ numPending state' = (numPending state + numFailed state)%nat
  /\ numPending state' = length (toProcess state).
Proof.
  destruct (counts_after_reset (items state)) as (H1 & H2 & H3).
  unfold numFailed, numPending. simpl.
  repeat split; try assumption.
  - now rewrite H1.
  - rewrite H3. symmetry. apply (proj2 (proj2 (counters_sum (items state)))).
Qed.

(** ** Outcomes for one identifier *)

Lemma setOutcome_again (l : list Part) (a : option Z) (v1 v2 : bool) :
  In a (map id l) ->
  setOutcome (setOutcome l a v1) a v2 = setOutcome l a v2.
Proof.
  intros H. destruct (split_at_id l a H) as (l1 & p & l2 & -> & H1 & Hp).
  rewrite (setOutcome_found l1 p l2 a v1 H1 Hp).
  rewrite (setOutcome_found l1 {| id := id p; success := Some v1 |} l2 a v2 H1 Hp).
  now rewrite (setOutcome_found l1 p l2 a v2 H1 Hp).
Qed.

(** X5. For an identifier carried by some part, a later outcome replaces an
    earlier one: dispatching two outcomes for it leaves the state that the
    second one alone would leave.  In particular an outcome dispatched twice
    counts once. *)
Theorem last_outcome_wins (state : State) (a : option Z) (v1 v2 : bool) :
  In a (map id (items state)) ->
  dispatchAll state [(a, v1); (a, v2)] = dispatchAll state [(a, v2)].
Proof.
  intros H. unfold dispatchAll. simpl fold_left.
  pose proof (setOutcome_again (items state) a v1 v2 H) as E.
  destruct v1, v2; simpl; rewrite E; reflexivity.
Qed.

Lemma last_outcome_wins_witness :
  let state := initialize 2 initialState in
  In (Some 1) (map id (items state))
  /\ dispatchAll state [(Some 1, false); (Some 1, true)]
     = dispatchAll state [(Some 1, true)].
Proof.
  intros state.
  assert (H : In (Some 1) (map id (items state)))
    by (simpl; right; left; reflexivity).
  split; [exact H |].
  exact (last_outcome_wins state (Some 1) false true H).
Defined.

(** ** A run, part by part *)

Lemma record1_id (q : Part) (c : option Z * bool) : id (record1 q c) = id q.
Proof. unfold record1. now destruct (strict_eq (id q) (fst c)). Qed.

Lemma recorded_id (cs : list (option Z * bool)) :
  forall q, id (recorded cs q) = id q.
Proof.
  induction cs as [|c cs IH]; intros q; [reflexivity |].
  unfold recorded in *. simpl. now rewrite IH, record1_id.
Qed.

Lemma recorded_untouched (cs : list (option Z * bool)) :
  forall q, ~ In (id q) (map fst cs) -> recorded cs q = q.
Proof.
  induction cs as [|c cs IH]; intros q H; [reflexivity |].
  unfold recorded in *. simpl in *.
  assert (E : record1 q c = q).
  { unfold record1. destruct (strict_eq (id q) (fst c)) eqn:Hc; [| reflexivity].
    apply strict_eq_true in Hc. exfalso. apply H. left. now symmetry. }
  rewrite E. apply IH. intros Hin. apply H. now right.
Qed.

Lemma recorded_stays_done (cs : list (option Z * bool)) :
  forall q, success q <> None -> success (recorded cs q) <> None.
Proof.
  induction cs as [|c cs IH]; intros q H; [assumption |].
  unfold recorded in *. simpl. apply IH. unfold record1.
  destruct (strict_eq (id q) (fst c)); [discriminate | assumption].
Qed.

Lemma recorded_reported (cs : list (option Z * bool)) :
  forall q, In (id q) (map fst cs) -> success (recorded cs q) <> None.
Proof.
  induction cs as [|c cs IH]; intros q H; [destruct H |].
  unfold recorded in *. simpl.
  destruct (strict_eq (id q) (fst c)) eqn:Hc.
  - apply (recorded_stays_done cs). unfold record1. rewrite Hc. discriminate.
  - apply IH. rewrite record1_id. destruct H as [H | H]; [| assumption].
    apply strict_eq_false in Hc. exfalso. apply Hc. now symmetry.
Qed.

Lemma recorded_last (cs1 cs2 : list (option Z * bool)) (q : Part) (ok : bool) :
  ~ In (id q) (map fst cs2) ->
  recorded (cs1 ++ (id q, ok) :: cs2) q = {| id := id q; success := Some ok |}.
Proof.
  intros H. unfold recorded. rewrite fold_left_app. simpl.
  fold (recorded cs1 q).
  assert (E : record1 (recorded cs1 q) (id q, ok)
              = {| id := id q; success := Some ok |}).
  { unfold record1. simpl. rewrite recorded_id.
    now rewrite (proj2 (strict_eq_true (id q) (id q)) eq_refl). }
  rewrite E. now apply (recorded_untouched cs2).
Qed.

(** With unique identifiers, [setOutcome] for a carried identifier acts on
    every part separately. *)
Lemma setOutcome_map (l : list Part) (a : option Z) (v : bool) :
  NoDup (map id l) -> In a (map id l) ->
  setOutcome l a v = map (fun q => record1 q (a, v)) l.
Proof.
  intros Hnd H. destruct (split_at_id l a H) as (l1 & p & l2 & -> & H1 & Hp).
  rewrite (setOutcome_found l1 p l2 a v H1 Hp).
  rewrite map_app in Hnd. simpl in Hnd. apply NoDup_remove_2 in Hnd.
  assert (Hother : forall l', (forall x, In x l' -> id x <> a) ->
                              map (fun q => record1 q (a, v)) l' = l').
  { intros l' Hl'. rewrite <- (map_id l') at 2. apply map_ext_in.
    intros x Hx. unfold record1. simpl.
    destruct (strict_eq (id x) a) eqn:E; [| reflexivity].
    apply strict_eq_true in E. now elim (Hl' x Hx). }
  rewrite map_app. simpl. rewrite !Hother.
  - unfold record1. simpl.
    now rewrite (proj2 (strict_eq_true (id p) a) Hp).
  - intros x Hx E. apply Hnd. apply in_or_app. right.
    rewrite Hp, <- E. now apply in_map.
  - assumption.
Qed.

Lemma dispatchAll_per_part (cs : list (option Z * bool)) :
  forall state,
    NoDup (map id (items state)) ->
    Forall (fun c => In (fst c) (map id (items state))) cs ->
    items (dispatchAll state cs) = map (recorded cs) (items state).
Proof.
  induction cs as [|[a v] cs IH]; intros state Hnd Hcs.
  - simpl. symmetry. apply map_id.
  - inversion Hcs as [| ? ? Ha Hrest]; subst. simpl in Ha.
    unfold dispatchAll. simpl fold_left.
    fold (dispatchAll (reducer state (outcomeAction (a, v))) cs).
    rewrite IH.
    + rewrite items_outcome, setOutcome_map by assumption.
      rewrite map_map. reflexivity.
    + now rewrite ids_after_outcome.
    + eapply Forall_impl; [| exact Hrest]. intros c Hc. cbv beta.
      now rewrite ids_after_outcome.
Qed.

Lemma isUploading_after_outcome (state : State) (c : option Z * bool) :
  isUploading (reducer state (outcomeAction c))
  = anyItemsPending (items (reducer state (outcomeAction c))).
Proof. destruct c as [a [|]]; reflexivity. Qed.

Lemma isUploading_dispatchAll (state : State) (cs : list (option Z * bool)) :
  cs <> [] ->
  isUploading (dispatchAll state cs)
  = anyItemsPending (items (dispatchAll state cs)).
Proof.
  intros H. destruct (exists_last H) as (cs' & c & ->).
  unfold dispatchAll. rewrite map_app, fold_left_app. simpl.
  apply isUploading_after_outcome.
Qed.

(** X6. In a ledger with pairwise different identifiers, a sequence of
    outcomes for carried identifiers acts on each part separately: a part
    whose identifier is not reported is left as it is, and a part whose
    identifier is reported ends with the last outcome reported for it. *)
Theorem outcomes_per_part (state : State) (cs : list (option Z * bool))
        (k : nat) (p : Part) :
  NoDup (map id (items state)) ->
  Forall (fun c => In (fst c) (map id (items state))) cs ->
  nth_error (items state) k = Some p ->
  (~ In (id p) (map fst cs) ->
     nth_error (items (dispatchAll state cs)) k = Some p)
  /\ (forall cs1 ok cs2,
        cs = cs1 ++ (id p, ok) :: cs2 -> ~ In (id p) (map fst cs2) ->
        nth_error (items (dispatchAll state cs)) k
        = Some {| id := id p; success := Some ok |}).
Proof.
  intros Hnd Hcs Hk.
  rewrite (dispatchAll_per_part cs state Hnd Hcs), nth_error_map, Hk.
  split.
  - intros H. simpl. now rewrite recorded_untouched.
  - intros cs1 ok cs2 -> H. simpl. now rewrite recorded_last.
Qed.

Lemma outcomes_per_part_witness :
  let state := initialize 3 initialState in
  let cs := [(Some 2, false); (Some 0, true); (Some 2, true)] in
  let p := {| id := Some 2; success := None |} in
  (NoDup (map id (items state))
   /\ Forall (fun c => In (fst c) (map id (items state))) cs
   /\ nth_error (items state) 2 = Some p)
  /\ nth_error (items (dispatchAll state cs)) 2
     = Some {| id := Some 2; success := Some true |}.
Proof.
  intros state cs p.
  assert (Hnd : NoDup (map id (items state))).
  { simpl. repeat constructor; simpl; intuition discriminate. }
  assert (Hcs : Forall (fun c => In (fst c) (map id (items state))) cs).
  { repeat apply Forall_cons; try apply Forall_nil; simpl; intuition. }
  split; [repeat split; assumption |].
  refine (proj2 (outcomes_per_part state cs 2 p Hnd Hcs eq_refl)
                [(Some 2, false); (Some 0, true)] true [] eq_refl _).
  simpl. intros [].
Defined.

(** ** A pass from start to end *)

Lemma filter_none {A : Type} (f : A -> bool) (l : list A) :
  (forall x, In x l -> f x = false) <-> filter f l = [].
Proof.
  split.
  - induction l as [|x l IH]; intros H; [reflexivity |].
    simpl. rewrite (H x (or_introl eq_refl)). apply IH.
    intros y Hy. apply H. now right.
  - intros E x Hx. destruct (f x) eqn:Hf; [| reflexivity].
    assert (Hin : In x (filter f l)) by (apply filter_In; now split).
    rewrite E in Hin. destruct Hin.
Qed.

Lemma reported_of_permutation (state : State) (cs : list (option Z * bool)) :
  Permutation (map fst cs) (map id (toProcess state)) ->
  reportsSubmitted state cs.
Proof.
  intros HP. apply Forall_forall. intros c Hc.
  eapply Permutation_in; [exact HP |]. now apply in_map.
Qed.

Lemma items_runPass (state : State) (cs : list (option Z * bool)) :
  NoDup (map id (items state)) -> reportsSubmitted state cs ->
  items (runPass state cs)
  = map (recorded cs) (items (reducer state START_UPLOAD)).
Proof.
  intros Hnd Hcs. unfold runPass. apply dispatchAll_per_part.
  - now rewrite ids_after_start.
  - eapply Forall_impl; [| exact Hcs]. intros c Hc. cbv beta.
    rewrite ids_after_start. now apply toProcess_ids_present.
Qed.

(** The parts [START_UPLOAD] leaves are the succeeded parts and, with their
    outcome reset, the parts of [toProcess]. *)
Lemma in_items_after_start (state : State) (q : Part) :
  In q (items (reducer state START_UPLOAD)) ->
  success q = Some true
  \/ (success q = None /\ In (id q) (map id (toProcess state))).
Proof.
  simpl. intros H. apply in_map_iff in H. destruct H as (p & <- & Hp).
  destruct p as [i [[|]|]]; simpl; [now left | right | right];
    (split; [reflexivity |]); apply in_map_iff.
  - exists {| id := i; success := Some false |}.
    split; [reflexivity | apply filter_In; now split].
  - exists {| id := i; success := None |}.
    split; [reflexivity | apply filter_In; now split].
Qed.

(** X7. A pass over a ledger with pairwise different identifiers in which
    every submitted task reports, in any order, leaves no pending part and
    clears [isUploading]: Initialize is enabled again, and Run is enabled
    again exactly when some part failed. *)
Theorem complete_pass_settles (state : State) (cs : list (option Z * bool)) :
  NoDup (map id (items state)) ->
  Permutation (map fst cs) (map id (toProcess state)) ->
  toProcess state <> [] ->
  let state' := runPass state cs in
  numPending state' = 0%nat
  /\ isUploading state' = false
  /\ initializeDisabled state' = false
  /\ runDisabled state' = notNumber (numFailed state').
Proof.
  intros Hnd HP Hne state'.
  pose proof (reported_of_permutation state cs HP) as Hcs.
  assert (Hpending : numPending state' = 0%nat).
  { unfold numPending, state'. rewrite (items_runPass state cs Hnd Hcs).
    apply length_zero_iff_nil, filter_none. intros x Hx.
    apply in_map_iff in Hx. destruct Hx as (q & <- & Hq).
    assert (Hdone : success (recorded cs q) <> None).
    { destruct (in_items_after_start state q Hq) as [Hs | [_ Hin]].
      - apply recorded_stays_done. rewrite Hs. discriminate.
      - apply recorded_reported. eapply Permutation_in;
          [apply Permutation_sym; exact HP | exact Hin]. }
    destruct (success (recorded cs q)); [reflexivity | now elim Hdone]. }
  assert (Hup : isUploading state' = false).
  { unfold state', runPass. rewrite isUploading_dispatchAll.
    - unfold anyItemsPending. fold (runPass state cs).
      change (length (filter (fun p => strict_eq_tri (success p) None)
                             (items (runPass state cs))))
        with (numPending state').
      now rewrite Hpending.
    - intros ->. apply Hne. apply Permutation_nil in HP.
      now apply map_eq_nil in HP. }
  unfold initializeDisabled, runDisabled.
  rewrite Hup, Hpending. now repeat split.
Qed.

Lemma complete_pass_settles_witness :
  let state := {| isUploading := false;
                  items := [ {| id := Some 0; success := Some true |};
                             {| id := Some 1; success := Some false |};
                             {| id := Some 2; success := None |} ] |} in
  let cs := [(Some 2, false); (Some 1, true)] in
  (NoDup (map id (items state))
   /\ Permutation (map fst cs) (map id (toProcess state))
   /\ toProcess state <> [])
  /\ isUploading (runPass state cs) = false
  /\ runDisabled (runPass state cs) = notNumber (numFailed (runPass state cs)).
Proof.
  intros state cs.
  assert (Hnd : NoDup (map id (items state))).
  { simpl. repeat constructor; simpl; intuition discriminate. }
  assert (HP : Permutation (map fst cs) (map id (toProcess state))).
  { simpl. apply perm_swap. }
  assert (Hne : toProcess state <> []) by (simpl; discriminate).
  split; [repeat split; assumption |].
  pose proof (complete_pass_settles state cs Hnd HP Hne) as (_ & H2 & _ & H4).
  split; assumption.
Defined.

(** X8. While some submitted task of a pass has not reported, [isUploading]
    stays set, so both buttons stay disabled: the flag cannot fall back
    before the last outcome of the pass. *)
Theorem pass_in_progress (state : State) (cs : list (option Z * bool))
        (x : option Z) :
  NoDup (map id (items state)) ->
  reportsSubmitted state cs ->
  In x (map id (toProcess state)) -> ~ In x (map fst cs) ->
  isUploading (runPass state cs) = true
  /\ runDisabled (runPass state cs) = true
  /\ initializeDisabled (runPass state cs) = true.
Proof.
  intros Hnd Hcs Hx Hnot.
  assert (Hup : isUploading (runPass state cs) = true).
  { destruct cs as [|c cs]; [reflexivity |].
    unfold runPass. rewrite isUploading_dispatchAll by discriminate.
    fold (runPass state (c :: cs)).
    apply anyItemsPending_exists.
    apply in_map_iff in Hx. destruct Hx as (p & <- & Hp).
    apply filter_In in Hp. destruct Hp as [Hp Hs].
    exists {| id := id p; success := None |}. split; [| reflexivity].
    rewrite (items_runPass state (c :: cs) Hnd Hcs).
    rewrite <- (recorded_untouched (c :: cs) {| id := id p; success := None |})
      by exact Hnot.
    apply in_map. simpl. apply in_map_iff. exists p. split; [| assumption].
    destruct p as [i [[|]|]]; simpl in *; [discriminate | |]; reflexivity. }
  unfold runDisabled, initializeDisabled. rewrite Hup. now repeat split.
Qed.

Lemma pass_in_progress_witness :
  let state := initialize 3 initialState in
  let cs := [(Some 2, true); (Some 0, false)] in
  (NoDup (map id (items state)) /\ reportsSubmitted state cs
   /\ In (Some 1) (map id (toProcess state)) /\ ~ In (Some 1) (map fst cs))
  /\ isUploading (runPass state cs) = true.
Proof.
  intros state cs.
  assert (Hnd : NoDup (map id (items state))).
  { simpl. repeat constructor; simpl; intuition discriminate. }
  assert (Hcs : reportsSubmitted state cs).
  { unfold reportsSubmitted.
    repeat apply Forall_cons; try apply Forall_nil; simpl; intuition. }
  assert (Hx : In (Some 1) (map id (toProcess state)))
    by (simpl; right; left; reflexivity).
  assert (Hnot : ~ In (Some 1) (map fst cs)).
  { simpl. intros [H | [H | []]]; discriminate H. }
  split; [repeat split; assumption |].
  exact (proj1 (pass_in_progress state cs (Some 1) Hnd Hcs Hx Hnot)).
Defined.

(** X9. When nothing is left to process, the Run button is disabled; if
    [run] is entered all the same, no task is created, the parts are left as
    they are, and [isUploading] is set with no outcome to clear it. *)
Theorem run_on_nothing (state : State) :
  toProcess state = [] ->
  runDisabled state = true
  /\ forall cs, reportsSubmitted state cs ->
       cs = []
       /\ runPass state cs = {| isUploading := true; items := items state |}.
Proof.
  intros H. split.
  - rewrite runDisabled_toProcess, H. apply orb_true_r.
  - intros cs Hcs.
    assert (E : cs = []).
    { destruct cs as [|c cs]; [reflexivity |].
      inversion Hcs as [| ? ? Hc _]; subst. rewrite H in Hc. destruct Hc. }
    subst cs. split; [reflexivity |].
    unfold runPass, dispatchAll. simpl. f_equal.
    rewrite <- (map_id (items state)) at 2. apply map_ext_in.
    intros p Hp. unfold toProcess in H.
    apply (proj2 (filter_none _ _) H) in Hp.
    destruct p as [i [[|]|]]; simpl in *; [reflexivity | |]; discriminate.
Qed.

Lemma run_on_nothing_witness :
  let state := {| isUploading := false;
                  items := [ {| id := Some 0; success := Some true |} ] |} in
  toProcess state = []
  /\ runDisabled state = true
  /\ runPass state [] = {| isUploading := true; items := items state |}.
Proof.
  intros state.
  assert (H : toProcess state = []) by reflexivity.
  split; [exact H |].
  destruct (run_on_nothing state H) as [H1 H2].
  split; [exact H1 |].
  exact (proj2 (H2 [] (Forall_nil _))).
Defined.

(** X10. In a pass over a ledger with pairwise different identifiers in
    which no identifier reports twice, every part that was not succeeded and
    whose task reported ends with exactly the reported outcome, at its old
    position and with its old identifier. *)
Theorem pass_records_outcome (state : State) (cs : list (option Z * bool))
        (k : nat) (p : Part) (ok : bool) :
  NoDup (map id (items state)) ->
  NoDup (map fst cs) ->
  reportsSubmitted state cs ->
  nth_error (items state) k = Some p -> success p <> Some true ->
  In (id p, ok) cs ->
  nth_error (items (runPass state cs)) k
  = Some {| id := id p; success := Some ok |}.
Proof.
  intros Hnd Hcsnd Hcs Hk Hs Hin.
  rewrite (items_runPass state cs Hnd Hcs). simpl.
  rewrite !nth_error_map, Hk. simpl. f_equal.
  assert (E : (if truthy (success p) then p
               else {| id := id p; success := None |})
              = {| id := id p; success := None |}).
  { destruct p as [i [[|]|]]; simpl in *; [now elim Hs | |]; reflexivity. }
  rewrite E. clear E.
  apply in_split in Hin. destruct Hin as (cs1 & cs2 & ->).
  apply (recorded_last cs1 cs2 {| id := id p; success := None |} ok).
  simpl. rewrite map_app in Hcsnd. simpl in Hcsnd.
  apply NoDup_remove_2 in Hcsnd. intros H. apply Hcsnd.
  apply in_or_app. now right.
Qed.

Lemma pass_records_outcome_witness :
  let state := {| isUploading := false;
                  items := [ {| id := Some 0; success := Some true |};
                             {| id := Some 1; success := Some false |};
                             {| id := Some 2; success := Some false |} ] |} in
  let cs := [(Some 2, false); (Some 1, true)] in
  let p := {| id := Some 1; success := Some false |} in
  (NoDup (map id (items state)) /\ NoDup (map fst cs)
   /\ reportsSubmitted state cs /\ nth_error (items state) 1 = Some p
   /\ success p <> Some true /\ In (id p, true) cs)
  /\ nth_error (items (runPass state cs)) 1
     = Some {| id := Some 1; success := Some true |}.
Proof.
  intros state cs p.
  assert (Hnd : NoDup (map id (items state))).
  { simpl. repeat constructor; simpl; intuition discriminate. }
  assert (Hcsnd : NoDup (map fst cs)).
  { simpl. repeat constructor; simpl; intuition discriminate. }
  assert (Hcs : reportsSubmitted state cs).
  { unfold reportsSubmitted.
    repeat apply Forall_cons; try apply Forall_nil; simpl; intuition. }
  assert (Hs : success p <> Some true) by discriminate.
  assert (Hin : In (id p, true) cs) by (simpl; right; left; reflexivity).
  split; [repeat split; assumption |].
  exact (pass_records_outcome state cs 1 p true Hnd Hcsnd Hcs eq_refl Hs Hin).
Defined.

(** ** Across passes *)

Lemma filter_length_pointwise {A : Type} (f : A -> bool) (l1 : list A) :
  forall l2,
    length l1 = length l2 ->
    (forall k p, nth_error l1 k = Some p -> f p = true ->
                 exists q, nth_error l2 k = Some q /\ f q = true) ->
    (length (filter f l1) <= length (filter f l2))%nat.
Proof.
  induction l1 as [|x l1 IH]; intros l2 Hlen H; [apply Nat.le_0_l |].
  destruct l2 as [|y l2]; [discriminate |].
  simpl in Hlen. injection Hlen as Hlen.
  assert (Hrest : (length (filter f l1) <= length (filter f l2))%nat).
  { apply IH; [assumption |]. intros k p Hk Hp. exact (H (S k) p Hk Hp). }
  simpl. destruct (f x) eqn:Hx.
  - destruct (H 0%nat x eq_refl Hx) as (q & Hq & Hfq).
    simpl in Hq. injection Hq as ->. rewrite Hfq. simpl. lia.
  - destruct (f y); simpl; lia.
Qed.

(** X11. Over any number of passes on a ledger with pairwise different
    identifiers, the item list keeps its length and its identifiers, and the
    number of succeeded parts never decreases. *)
Theorem progress_never_lost (state state' : State) :
  passes state state' ->
  NoDup (map id (items state)) ->
  map id (items state') = map id (items state)
  /\ length (items state') = length (items state)
  /\ (length (getSuccessParts (items state))
      <= length (getSuccessParts (items state')))%nat.
Proof.
  intros Hp Hnd.
  pose proof (ids_after_passes state state' Hp) as Hids.
  assert (Hlen : length (items state') = length (items state)).
  { rewrite <- (length_map id (items state')), Hids. apply length_map. }
  repeat split; [assumption | assumption |].
  unfold getSuccessParts. apply filter_length_pointwise; [now symmetry |].
  intros k p Hk Hs. exists p. split; [| assumption].
  apply (passes_keep_succeeded state state' k p Hp Hnd Hk).
  destruct (success p) as [[|]|]; [reflexivity | |]; discriminate.
Qed.

Lemma progress_never_lost_witness :
  let state := {| isUploading := false;
                  items := [ {| id := Some 0; success := Some true |};
                             {| id := Some 1; success := Some false |} ] |} in
  let state' := runPass (runPass state [(Some 1, false)]) [(Some 1, true)] in
  (passes state state' /\ NoDup (map id (items state)))
  /\ (length (getSuccessParts (items state))
      <= length (getSuccessParts (items state')))%nat.
Proof.
  intros state state'.
  assert (Hnd : NoDup (map id (items state))).
  { simpl. repeat constructor; simpl; intuition discriminate. }
  assert (Hp : passes state state').
  { apply (passes_more state [(Some 1, false)]).
    - unfold reportsSubmitted. apply Forall_cons; [| apply Forall_nil].
      simpl. left. reflexivity.
    - apply (passes_more _ [(Some 1, true)]); [| apply passes_done].
      unfold reportsSubmitted. apply Forall_cons; [| apply Forall_nil].
      simpl. left. reflexivity. }
  split; [split; assumption |].
  exact (proj2 (proj2 (progress_never_lost state state' Hp Hnd))).
Defined.

(** X12. Whatever passes follow [handleInitialize] run with [n] parts, the
    ledger keeps exactly the identifiers [0 .. n-1] in that order, each
    once. *)
Theorem initialized_ids_fixed (n : nat) (state state' : State) :
  passes (initialize n state) state' ->
  map id (items state') = map (fun i => Some (Z.of_nat i)) (seq 0 n)
  /\ length (items state') = n
  /\ NoDup (map id (items state')).
Proof.
  intros H.
  assert (E : map id (items state')
              = map (fun i => Some (Z.of_nat i)) (seq 0 n)).
  { rewrite (ids_after_passes _ _ H). unfold initialize. simpl.
    rewrite fakeParts_seq, !map_map. reflexivity. }
  repeat split.
  - exact E.
  - rewrite <- (length_map id), E, length_map. apply length_seq.
  - rewrite E. apply Finite.Injective_map_NoDup; [| apply seq_NoDup].
    intros i j Hij. injection Hij as Hij. lia.
Qed.

Lemma initialized_ids_fixed_witness :
  let state' := runPass (initialize 2 initialState)
                        [(Some 1, true); (Some 0, false)] in
  passes (initialize 2 initialState) state'
  /\ map id (items state') = [Some 0; Some 1].
Proof.
  intros state'.
  assert (Hp : passes (initialize 2 initialState) state').
  { apply (passes_more _ [(Some 1, true); (Some 0, false)]);
      [| apply passes_done].
    unfold reportsSubmitted.
    repeat apply Forall_cons; try apply Forall_nil; simpl; intuition. }
  split; [exact Hp |].
  exact (proj1 (initialized_ids_fixed 2 initialState state' Hp)).
Defined.

Lemma toProcess_fresh (l : list Z) :
  filter (fun part => negb (strict_eq_tri (success part) (Some true)))
         (map (fun i => {| id := Some i; success := None |}) l)
  = map (fun i => {| id := Some i; success := None |}) l.
Proof.
  induction l as [|i l IH]; [reflexivity |]. simpl. now rewrite IH.
Qed.

(** X13. The first [run] after [handleInitialize] with [n] parts submits
    every part, in identifier order, and the Run button is enabled for it
    exactly when no upload is marked as running and [n] is not [0]. *)
Theorem first_run_submits_all (n : nat) (state : State) :
  toProcess (initialize n state) = items (initialize n state)
  /\ map id (toProcess (initialize n state))
     = map (fun i => Some (Z.of_nat i)) (seq 0 n)
  /\ runDisabled (initialize n state)
     = (isUploading state || Nat.eqb n 0).
Proof.
  assert (E : toProcess (initialize n state) = items (initialize n state)).
  { unfold toProcess, initialize. simpl. apply toProcess_fresh. }
  assert (Hids : map id (items (initialize n state))
                 = map (fun i => Some (Z.of_nat i)) (seq 0 n)).
  { unfold initialize. simpl. rewrite fakeParts_seq, !map_map. reflexivity. }
  split; [exact E |]. split; [now rewrite E |].
  rewrite runDisabled_toProcess, E.
  change (isUploading (initialize n state)) with (isUploading state).
  f_equal. destruct n; reflexivity.
Qed.

Lemma dispatchAll_order_independent_witness :
  let state := initialize 3 initialState in
  let cs := [(Some 0, true); (Some 1, false); (Some 2, true)] in
  let cs' := [(Some 2, true); (Some 0, true); (Some 1, false)] in
  (Permutation cs cs' /\ NoDup (map fst cs)
   /\ Forall (fun c => In (fst c) (map id (items state))) cs)
  /\ dispatchAll state cs = dispatchAll state cs'.
Proof.
  intros state cs cs'.
  assert (HP : Permutation cs cs').
  { unfold cs, cs'.
    apply (Permutation_cons_app [(Some 2, true)] [(Some 1, false)]).
    apply perm_swap. }
  assert (Hnd : NoDup (map fst cs)).
  { simpl. repeat constructor; simpl; intuition discriminate. }
  assert (Hcs : Forall (fun c => In (fst c) (map id (items state))) cs).
  { repeat apply Forall_cons; try apply Forall_nil; simpl; intuition. }
  split; [repeat split; assumption |].
  exact (dispatchAll_order_independent cs cs' HP state Hnd Hcs).
Defined.
